(** * The comments service of yoom_server: realtime fan-out and buffered persistence

    A shallow embedding of
    - [comments-service/src/index.ts]: the HTTP and WebSocket ingestion
      paths, the room registry, the hot cache and the persistence policy;
    - [comments-service/src/worker.ts]: the Kafka consumer ([eachBatch]);
    - the Redis-list consumer ([processBatch], with its dead-letter list).

    Conventions.  Values that the code obtains from its environment (the
    clock, [randomUUID()], [Math.random()], whether a network call fails)
    are arguments of the embedded functions.  A handler returns the new
    state together with the list of effects it issued, in program order. *)

From Stdlib Require Import Ascii QArith Qminmax Lqa Sorted.
From stdpp Require Import gmap strings list fin_maps pretty.

Set Warnings "-register-all,-clear-no-such-hyp".

Local Open Scope string_scope.
Local Open Scope list_scope.

(* ===================================================================== *)
(** * Part I: definitions                                                 *)
(* ===================================================================== *)

(** ** JavaScript values *)

Module Js.

(** The values [JSON.parse] can return.  Numbers are the integral ones. *)
Inductive json :=
| JNull
| JBool (b : bool)
| JNum (n : Z)
| JStr (s : string)
| JArr (items : list json)
| JObj (fields : list (string * json)).

(** A piece of text on the wire (a queue message, a socket frame, a cache
    entry), identified by what [JSON.parse] makes of it: a value, or a
    [SyntaxError].  [JSON.stringify] of a value is the text that parses
    back to it. *)
Inductive text :=
| Malformed (raw : string)
| Encoded (j : json).

Definition JSON_parse (t : text) : option json :=
  match t with
  | Malformed _ => None
  | Encoded j => Some j
  end.

Definition JSON_stringify (j : json) : text := Encoded j.

(** [None] is [undefined]. *)
Definition truthy (v : option json) : bool :=
  match v with
  | None | Some JNull => false
  | Some (JBool b) => b
  | Some (JNum n) => negb (n =? 0)%Z
  | Some (JStr s) => negb (String.eqb s "")
  | Some (JArr _) | Some (JObj _) => true
  end.

Fixpoint assoc (k : string) (fields : list (string * json)) : option json :=
  match fields with
  | [] => None
  | (k', v) :: rest => if String.eqb k k' then Some v else assoc k rest
  end.

(** [v.k] for the keys the service reads; [undefined] on anything that is
    not an object (every read in the source sits behind a truthiness
    guard on [v]). *)
Definition get (v : option json) (k : string) : option json :=
  match v with
  | Some (JObj fields) => assoc k fields
  | _ => None
  end.

(** [String(v)] for a defined value. *)
Fixpoint String_ (j : json) : string :=
  match j with
  | JNull => "null"
  | JBool true => "true"
  | JBool false => "false"
  | JNum n => pretty n
  | JStr s => s
  | JArr items =>
      String.concat ","
        ((fix elems (l : list json) : list string :=
            match l with
            | [] => []
            | JNull :: r => "" :: elems r
            | x :: r => String_ x :: elems r
            end) items)
  | JObj _ => "[object Object]"
  end.

(** [String(v)], [undefined] included. *)
Definition String_of (v : option json) : string :=
  match v with
  | Some j => String_ j
  | None => "undefined"
  end.

Definition lower (c : ascii) : ascii :=
  let n := nat_of_ascii c in
  if (65 <=? n)%nat && (n <=? 90)%nat then ascii_of_nat (n + 32) else c.

(** [s.toLowerCase()], on ASCII letters. *)
Fixpoint toLowerCase (s : string) : string :=
  match s with
  | EmptyString => EmptyString
  | String c r => String (lower c) (toLowerCase r)
  end.

(** [s.slice(0, n)]. *)
Definition slice0 (n : nat) (s : string) : string := String.substring 0 n s.

(** [a || b] on strings: the empty string is falsy. *)
Definition str_or (a : option string) (b : string) : string :=
  match a with
  | Some s => if String.eqb s "" then b else s
  | None => b
  end.

(** [v === lit] for a string literal [lit]. *)
Definition strict_eq_string (v : option json) (lit : string) : bool :=
  match v with
  | Some (JStr s) => String.eqb s lit
  | _ => false
  end.

(** A JavaScript number as far as the clamps below can tell: not a
    number, an infinity, or a finite value of type [A]. *)
Inductive jsnum (A : Type) :=
| NaN
| NegInf
| PosInf
| Fin (x : A).
Arguments NaN {A}.
Arguments NegInf {A}.
Arguments PosInf {A}.
Arguments Fin {A} x.

Definition Qlt_bool (x y : Q) : bool := negb (Qle_bool y x).

(** The integer a number is, if it is one. *)
Definition as_integer (q : Q) : option Z :=
  if Pos.eqb (Qden (Qred q)) 1 then Some (Qnum (Qred q)) else None.

End Js.
Import Js.

(** ** Configuration and persistence policy ([index.ts], lines 64-79, 120-121) *)

Module Policy.

(** What the process reads from its environment at start-up.
    [SAMPLE_RATE_number] is [Number(process.env.SAMPLE_RATE || '0')]. *)
Record Env := {
  COMMENTS_PERSIST : option string;
  SAMPLE_RATE_number : jsnum Q;
  REDIS_URL : string
}.

(** [(process.env.COMMENTS_PERSIST || 'none').toLowerCase()] *)
Definition PERSIST_MODE (e : Env) : string :=
  toLowerCase (str_or (COMMENTS_PERSIST e) "none").

(** [Math.min(Math.max(Number(...) || 0, 0), 1)] *)
Definition SAMPLE_RATE (e : Env) : Q :=
  match SAMPLE_RATE_number e with
  | NaN => 0
  | NegInf => 0
  | PosInf => 1
  | Fin q => Qmin (Qmax q 0) 1
  end.

(** [redisPublisher] and [redisSubscriber] exist iff [REDIS_URL] is set. *)
Definition redis_on (e : Env) : bool := negb (String.eqb (REDIS_URL e) "").

(** [forcePersist || PERSIST_MODE === 'all' ||
     (PERSIST_MODE === 'sample' && Math.random() < SAMPLE_RATE)];
    [random] is the value [Math.random()] returns for this record. *)
Definition shouldPersist (e : Env) (forcePersist : bool) (random : Q) : bool :=
  forcePersist
  || String.eqb (PERSIST_MODE e) "all"
  || (String.eqb (PERSIST_MODE e) "sample" && Qlt_bool random (SAMPLE_RATE e)).

(** The socket path has no caller override ([index.ts], line 201). *)
Definition shouldPersist_ws (e : Env) (random : Q) : bool :=
  String.eqb (PERSIST_MODE e) "all"
  || (String.eqb (PERSIST_MODE e) "sample" && Qlt_bool random (SAMPLE_RATE e)).

End Policy.

(** ** The primary store ([prisma.comment], table [Comment] of the migration) *)

Module Prisma.

(** A row of table [Comment]: [id] is the primary key. *)
Record Comment := {
  id : string;
  videoId : string;
  userId : string;
  content : string;
  createdAt : string
}.

(** The [data] argument of [create] and [createMany].  [id] is optional:
    when it is left out the client fills in the schema's default. *)
Record CommentCreateInput := {
  data_id : option string;
  data_videoId : string;
  data_userId : string;
  data_content : string
}.

(** The table, and how many default ids have been handed out so far. *)
Record Table := {
  rows : list Comment;
  minted : nat
}.

Definition empty : Table := {| rows := []; minted := 0 |}.

Definition has_id (t : Table) (i : string) : bool :=
  existsb (fun r => String.eqb (id r) i) (rows t).

Section WithDefaultId.

(** The generator behind the schema's [@default] for [id].  The Prisma
    schema is not among the sources: the migration gives column [id] no
    database default and every caller creates rows without an id, so the
    client generates one.  [default_id n] is the n-th id it generates. *)
Variable default_id : nat -> string.

(** The row an input stands for at time [now], and the generator's counter
    afterwards. *)
Definition materialise (now : string) (t : Table) (d : CommentCreateInput)
  : Comment * nat :=
  let row i := {| id := i; videoId := data_videoId d; userId := data_userId d;
                  content := data_content d; createdAt := now |} in
  match data_id d with
  | Some i => (row i, minted t)
  | None => (row (default_id (minted t)), S (minted t))
  end.

(** [prisma.comment.create({ data })] on a reachable database: [None] is the
    unique-constraint error. *)
Definition create (now : string) (t : Table) (d : CommentCreateInput)
  : option (Table * Comment) :=
  let '(row, m) := materialise now t d in
  if has_id t (id row) then None
  else Some ({| rows := rows t ++ [row]; minted := m |}, row).

(** [prisma.comment.createMany({ data, skipDuplicates: true })] on a
    reachable database: a row whose id is already present is skipped.
    Returns the table and [result.count]. *)
Fixpoint createMany (now : string) (t : Table) (data : list CommentCreateInput)
  : Table * nat :=
  match data with
  | [] => (t, 0)
  | d :: rest =>
      let '(row, m) := materialise now t d in
      if has_id t (id row)
      then createMany now {| rows := rows t; minted := m |} rest
      else let '(t', n) := createMany now {| rows := rows t ++ [row]; minted := m |} rest in
           (t', S n)
  end.

End WithDefaultId.

(** Insertion into a list ordered by [createdAt], newest first. *)
Fixpoint insert_desc (r : Comment) (l : list Comment) : list Comment :=
  match l with
  | [] => [r]
  | x :: rest =>
      if String.leb (createdAt x) (createdAt r) then r :: l
      else x :: insert_desc r rest
  end.

(** [findMany({ where: { videoId }, take, orderBy: { createdAt: 'desc' } })] *)
Definition findMany_desc (t : Table) (vid : string) (take_ : nat) : list Comment :=
  take take_
    (foldr insert_desc []
       (List.filter (fun r => String.eqb (videoId r) vid) (rows t))).

(** A row as the JSON the service sends out. *)
Definition to_json (r : Comment) : json :=
  JObj [("id", JStr (id r)); ("videoId", JStr (videoId r));
        ("userId", JStr (userId r)); ("content", JStr (content r));
        ("createdAt", JStr (createdAt r))].

End Prisma.

(** ** Redis lists (the hot cache, the list queue and its dead-letter list) *)

Module Redis.

Record Db := {
  lists : gmap string (list text);
  ttl : gmap string Z
}.

Definition empty : Db := {| lists := ∅; ttl := ∅ |}.

Definition llist (db : Db) (key : string) : list text :=
  default [] (lists db !! key).

Definition set_list (db : Db) (key : string) (l : list text) : Db :=
  {| lists := <[key := l]> (lists db); ttl := ttl db |}.

(** The elements [start..stop] (inclusive) of a list; negative offsets
    count from the end, as in LRANGE and LTRIM. *)
Definition range (l : list text) (start stop : Z) : list text :=
  let len := Z.of_nat (length l) in
  let s := if (start <? 0)%Z then Z.max 0 (len + start) else start in
  let e := if (stop <? 0)%Z then (len + stop)%Z else stop in
  let e := Z.min e (len - 1) in
  if (e <? s)%Z then [] else take (Z.to_nat (e - s + 1)) (drop (Z.to_nat s) l).

Definition lrange (db : Db) (key : string) (start stop : Z) : list text :=
  range (llist db key) start stop.

Definition ltrim (db : Db) (key : string) (start stop : Z) : Db :=
  set_list db key (range (llist db key) start stop).

Definition lpush (db : Db) (key : string) (v : text) : Db :=
  set_list db key (v :: llist db key).

Definition rpush (db : Db) (key : string) (vs : list text) : Db :=
  set_list db key (llist db key ++ vs).

Definition expire (db : Db) (key : string) (seconds : Z) : Db :=
  match llist db key with
  | [] => db
  | _ => {| lists := lists db; ttl := <[key := seconds]> (ttl db) |}
  end.

End Redis.

(** ** The realtime service ([comments-service/src/index.ts]) *)

Module Service.
Import Policy.

(** [TOPIC_COMMENTS] of [kafka.ts]. *)
Definition TOPIC_COMMENTS : string := "comments".

(** What a handler does to the outside world, in the order the handler
    issues it.  [KafkaSend] and [DbCreate] are awaited: the statements after
    them run once the call has settled.  The [Defer...] effects are the
    [setImmediate] callbacks, which run after the handler's current turn. *)
Inductive effect :=
| KafkaSend (topic key : string) (value : text)
| DbCreate (data : Prisma.CommentCreateInput)
| LogError (what : string)
| RedisPublish (channel : string) (msg : text)
| DeferEmit (channel : string) (msg : text)
| DeferCacheWrite (key : string) (entry : text)
| Respond (status : nat) (body : json)
| RedisSubscribe (channel : string)
| RedisUnsubscribe (channel : string)
| WsClose (ws : nat)
| WsSend (ws : nat) (msg : text).

(** What one request takes from its environment. *)
Record Call := {
  uuid : string;      (* randomUUID() *)
  now : string;       (* new Date().toISOString() *)
  random : Q;         (* Math.random(), in [0,1) *)
  send_ok : bool;     (* producer.send resolves *)
  db_ok : bool;       (* the primary store is reachable *)
  db_now : string     (* the store's clock, for the createdAt default *)
}.

(** The effects that attempt to persist a record (enqueue it, or write it
    to the store), and those that broadcast it. *)
Definition is_persistence (x : effect) : bool :=
  match x with
  | KafkaSend _ _ _ | DbCreate _ => true
  | _ => false
  end.

Definition is_broadcast (x : effect) : bool :=
  match x with
  | RedisPublish _ _ | DeferEmit _ _ => true
  | _ => false
  end.

(** *** [publish] (lines 123-128).  Every caller passes an object. *)
Definition publish (e : Env) (roomId : string) (payload : json) : list effect :=
  let text := JSON_stringify payload in
  (if redis_on e then [RedisPublish ("room:" +:+ roomId) text] else [])
  ++ [DeferEmit ("room:" +:+ roomId) text].

(** *** The hot cache (lines 102-114 and 209-218, lines 35-53) *)

Definition CACHE_CAP : nat := 500.

Definition cache_key (scope videoId : string) : string :=
  "chat:" +:+ scope +:+ ":" +:+ videoId.

(** The deferred task: [lpush], [ltrim(key, 0, 499)], [expire]. *)
Definition cache_write (db : Redis.Db) (key : string) (entry : text) : Redis.Db :=
  Redis.expire (Redis.ltrim (Redis.lpush db key entry) key 0 499) key (24 * 60 * 60).

(** The cache after the deferred tasks of several comments have run, in
    the order the comments were submitted. *)
Definition cache_writes (db : Redis.Db) (key : string) (entries : list text) : Redis.Db :=
  foldl (fun d entry => cache_write d key entry) db entries.

(** [Math.min(Math.max(Number(limitRaw || 0) || 0, 0), 1000) || 200];
    the argument is [Number(limitRaw || 0)]. *)
Definition limit_of (n : jsnum Q) : Q :=
  let clamped : Q :=
    match n with
    | NaN | NegInf => 0
    | PosInf => 1000
    | Fin q => Qmin (Qmax q 0) 1000
    end%Q in
  (if Qeq_bool clamped 0 then 200 else clamped)%Q.

Record GetReq := {
  g_videoId : option string;
  g_limit : jsnum Q;
  g_scope : option string
}.

(** [arr.map(s => { try { return JSON.parse(s) } catch { return null } })
        .filter(Boolean)] *)
Definition parse_entries (arr : list text) : list json :=
  omap (fun s => match JSON_parse s with
                 | Some j => if truthy (Some j) then Some j else None
                 | None => None
                 end) arr.

(** The [items] of [GET /comments] for a room; [cache] is [None] when
    there is no [redisPublisher] or the [lrange] call fails.  A limit that
    is not an integer reaches [lrange] and [findMany] as it is: Redis
    refuses an index that is not an integer, which the [catch] swallows,
    and the Prisma client refuses such a [take], which nothing catches:
    the result is then [None], the handler throwing. *)
Definition recent (cache : option Redis.Db) (table : Prisma.Table)
    (videoId : string) (limit : jsnum Q) (scope : option string)
  : option (list json) :=
  let limit := limit_of limit in
  let key := cache_key (toLowerCase (str_or scope "live")) videoId in
  let arr := match cache, as_integer limit with
             | Some db, Some n => Redis.lrange db key 0 (n - 1)
             | _, _ => []
             end in
  match arr with
  | _ :: _ => Some (reverse (parse_entries arr))
  | [] =>
      match as_integer limit with
      | Some n =>
          Some (reverse (Prisma.to_json <$> Prisma.findMany_desc table videoId (Z.to_nat n)))
      | None => None
      end
  end.

(** [GET /comments]: the response, or [None] when the handler throws. *)
Definition get_comments (e : Env) (redis : Redis.Db) (redis_ok : bool)
    (table : Prisma.Table) (r : GetReq) : option effect :=
  match g_videoId r with
  | None => Some (Respond 400 (JObj [("error", JStr "videoId required")]))
  | Some videoId =>
      if String.eqb videoId ""
      then Some (Respond 400 (JObj [("error", JStr "videoId required")]))
      else
        let cache := if redis_on e && redis_ok then Some redis else None in
        items ← recent cache table videoId (g_limit r) (g_scope r);
        Some (Respond 200 (JObj [("items", JArr items)]))
  end.

(** *** [POST /comments] (lines 56-116) *)

Record CreateBody := {
  videoId : string;
  userId : string;
  content : string;
  replyToId : option string;
  replyToUserId : option string;
  persist : option bool
}.

(** [z.string().min(lo)], with [.max(hi)] when [hi] is given. *)
Definition z_string (lo : nat) (hi : option nat) (v : option json) : option string :=
  match v with
  | Some (JStr s) =>
      if (lo <=? String.length s)%nat
         && match hi with Some h => (String.length s <=? h)%nat | None => true end
      then Some s else None
  | _ => None
  end.

(** [z.string().optional()] *)
Definition z_string_optional (v : option json) : option (option string) :=
  match v with
  | None => Some None
  | Some (JStr s) => Some (Some s)
  | Some _ => None
  end.

(** [z.boolean().optional()] *)
Definition z_boolean_optional (v : option json) : option (option bool) :=
  match v with
  | None => Some None
  | Some (JBool b) => Some (Some b)
  | Some _ => None
  end.

(** [createSchema.safeParse(body)]: [None] when [success] is false. *)
Definition createSchema_safeParse (body : json) : option CreateBody :=
  match body with
  | JObj _ =>
      let b := Some body in
      v ← z_string 1 None (get b "videoId");
      u ← z_string 1 None (get b "userId");
      c ← z_string 1 (Some 2000%nat) (get b "content");
      r ← z_string_optional (get b "replyToId");
      ru ← z_string_optional (get b "replyToUserId");
      p ← z_boolean_optional (get b "persist");
      Some {| videoId := v; userId := u; content := c;
              replyToId := r; replyToUserId := ru; persist := p |}
  | _ => None
  end.

(** A property whose value may be [undefined]: [JSON.stringify] leaves
    such a property out. *)
Definition optional_field (k : string) (v : option json) : list (string * json) :=
  match v with
  | Some j => [(k, j)]
  | None => []
  end.

(** The record both paths build:
    [{ id: randomUUID(), videoId, userId, content, createdAt: now,
       replyToId, replyToUserId }]. *)
Definition temp_of (c : Call) (videoId userId content : string)
    (replyToId replyToUserId : option json) : json :=
  JObj ([("id", JStr (uuid c)); ("videoId", JStr videoId); ("userId", JStr userId);
         ("content", JStr content); ("createdAt", JStr (now c))]
        ++ optional_field "replyToId" replyToId
        ++ optional_field "replyToUserId" replyToUserId).

Definition broadcast (kind : string) (item : json) : json :=
  JObj [("type", JStr kind); ("item", item)].

Record PostReq := {
  q_persist : option string;
  q_scope : option string;
  body : text
}.

(** [createSchema.safeParse(await c.req.json().catch(() => ({})))] *)
Definition parsed (r : PostReq) : option CreateBody :=
  createSchema_safeParse (default (JObj []) (JSON_parse (body r))).

(** [c.req.query('persist') === '1' || parsed.data.persist === true] *)
Definition forcePersist (r : PostReq) (p : CreateBody) : bool :=
  bool_decide (q_persist r = Some "1") || bool_decide (persist p = Some true).

(** The handler.  The [details] of the 400 response are left out. *)
Definition post_comments (e : Env) (c : Call) (r : PostReq) : list effect :=
  match parsed r with
  | None => [Respond 400 (JObj [("error", JStr "invalid body")])]
  | Some p =>
      let scope := toLowerCase (str_or (q_scope r) "live") in
      let temp := temp_of c (videoId p) (userId p) (content p)
                    (JStr <$> replyToId p) (JStr <$> replyToUserId p) in
      let created := temp in
      (if shouldPersist e (forcePersist r p) (random c)
       then KafkaSend TOPIC_COMMENTS (videoId p) (JSON_stringify temp)
            :: (if send_ok c then [] else [LogError "[kafka] failed to produce message"])
       else [])
      ++ publish e (videoId p) (broadcast "comment" created)
      ++ (if truthy (JStr <$> replyToUserId p)
          then publish e ("user:" +:+ default "" (replyToUserId p)) (broadcast "reply" created)
          else [])
      ++ (if redis_on e
          then [DeferCacheWrite (cache_key scope (videoId p)) (JSON_stringify created)]
          else [])
      ++ [Respond 200 created]
  end.

(** *** A socket frame (lines 191-222) *)

(** [(data.scope || 'live').toLowerCase()]; [None] is the [TypeError] of a
    truthy [scope] that is not a string. *)
Definition scope_of (data : option json) : option string :=
  let s := get data "scope" in
  if truthy s then
    match s with
    | Some (JStr x) => Some (toLowerCase x)
    | _ => None
    end
  else Some "live".

(** [save()]: the record to broadcast, the table afterwards and the effects. *)
Definition save (default_id : nat -> string) (e : Env) (c : Call)
    (table : Prisma.Table) (d : Prisma.CommentCreateInput) (temp : json)
  : json * Prisma.Table * list effect :=
  if shouldPersist_ws e (random c) then
    match (if db_ok c then Prisma.create default_id (db_now c) table d else None) with
    | Some (table', row) => (Prisma.to_json row, table', [DbCreate d])
    | None => (temp, table, [DbCreate d; LogError "[db] persist failed"])
    end
  else (temp, table, []).

Definition on_message (default_id : nat -> string) (e : Env) (c : Call)
    (table : Prisma.Table) (raw : text) : Prisma.Table * list effect :=
  match JSON_parse raw with
  | None => (table, [])
  | Some j =>
      let data := Some j in
      if truthy data
         && strict_eq_string (get data "type") "comment"
         && truthy (get data "videoId") && truthy (get data "userId")
         && truthy (get data "content")
      then
        let content := slice0 2000 (String_of (get data "content")) in
        let temp := temp_of c (String_of (get data "videoId")) (String_of (get data "userId"))
                      content (get data "replyToId") (get data "replyToUserId") in
        match scope_of data with
        | None => (table, [])
        | Some scope =>
            let d := {| Prisma.data_id := None;
                        Prisma.data_videoId := String_of (get data "videoId");
                        Prisma.data_userId := String_of (get data "userId");
                        Prisma.data_content := content |} in
            let '(created, table', effs) := save default_id e c table d temp in
            (table',
             effs
             ++ publish e (String_of (get data "videoId")) (broadcast "comment" created)
             ++ (if truthy (get data "replyToUserId")
                 then publish e ("user:" +:+ String_of (get data "replyToUserId"))
                        (broadcast "reply" created)
                 else [])
             ++ (if redis_on e
                 then [DeferCacheWrite
                         (cache_key scope (String_of (get (Some created) "videoId")))
                         (JSON_stringify created)]
                 else []))
        end
      else (table, [])
  end.

End Service.

(** ** The room registry ([index.ts], lines 133-236) *)

Module Registry.
Import Policy Service.

(** The request URL of an upgrade: [BadUrl] when [new URL(...)] throws,
    otherwise what [url.searchParams.get('roomId')] returns. *)
Inductive req_url :=
| BadUrl
| Url (roomId : option string).

(** Sockets are identified by a number (object identity in the source).
    Listener [n] of [localBus] is the [onLocal] closure of socket [n];
    [handlers] holds the sockets whose [message] and [close] handlers are
    attached, with the [roomId] those closures captured. *)
Record State := {
  roomSubscribers : gmap string (gset nat);
  localBus : gmap string (list nat);
  handlers : gmap nat string
}.

Definition init : State :=
  {| roomSubscribers := ∅; localBus := ∅; handlers := ∅ |}.

Definition listeners (st : State) (channel : string) : list nat :=
  default [] (localBus st !! channel).

(** [roomSubscribers.has(roomId)] *)
Definition has (subs : gmap string (gset nat)) (roomId : string) : bool :=
  match subs !! roomId with
  | Some _ => true
  | None => false
  end.

(** Lines 165-173. *)
Definition ensureSubscribeRoom (e : Env) (subs : gmap string (gset nat))
    (roomId : string) : list effect :=
  let channel := "room:" +:+ roomId in
  if redis_on e then
    if negb (has subs roomId) then [RedisSubscribe channel] else []
  else [].

(** [wss.on('connection', ...)], lines 175-190 and 235. *)
Definition on_connection (e : Env) (st : State) (ws : nat) (url : req_url)
  : State * list effect :=
  match url with
  | BadUrl => (st, [WsClose ws])
  | Url q =>
      let roomId := str_or q "" in
      if String.eqb roomId "" then (st, [WsClose ws])
      else
        let channel := "room:" +:+ roomId in
        let subs1 := if has (roomSubscribers st) roomId then roomSubscribers st
                     else <[roomId := ∅]> (roomSubscribers st) in
        let subs2 := <[roomId := {[ws]} ∪ default ∅ (subs1 !! roomId)]> subs1 in
        let effs := ensureSubscribeRoom e subs2 roomId in
        ({| roomSubscribers := subs2;
            localBus := <[channel := listeners st channel ++ [ws]]> (localBus st);
            handlers := <[ws := roomId]> (handlers st) |},
         effs)
  end.

Fixpoint remove_first (n : nat) (l : list nat) : list nat :=
  match l with
  | [] => []
  | x :: rest => if Nat.eqb x n then rest else x :: remove_first n rest
  end.

(** [localBus.off(channel, listener)]: the most recently added instance of
    the listener goes. *)
Definition off (l : list nat) (n : nat) : list nat :=
  reverse (remove_first n (reverse l)).

(** [ws.on('close', ...)], lines 224-234. *)
Definition on_close (e : Env) (st : State) (ws : nat) : State * list effect :=
  match handlers st !! ws with
  | None => (st, [])
  | Some roomId =>
      let channel := "room:" +:+ roomId in
      let bus := <[channel := off (listeners st channel) ws]> (localBus st) in
      let hs := delete ws (handlers st) in
      match roomSubscribers st !! roomId with
      | Some set =>
          let set' := set ∖ {[ws]} in
          if bool_decide (size set' = 0%nat)
          then ({| roomSubscribers := delete roomId (roomSubscribers st);
                   localBus := bus; handlers := hs |},
                if redis_on e then [RedisUnsubscribe channel] else [])
          else ({| roomSubscribers := <[roomId := set']> (roomSubscribers st);
                   localBus := bus; handlers := hs |}, [])
      | None => ({| roomSubscribers := roomSubscribers st;
                    localBus := bus; handlers := hs |}, [])
      end
  end.

(** [localBus.emit(channel, msg)]: each listener does [ws.send(msg)]. *)
Definition emit (st : State) (channel : string) (msg : text) : list effect :=
  (fun ws => WsSend ws msg) <$> listeners st channel.

(** What can happen to the registry: a socket connects, a socket closes,
    or something is emitted on the local bus (a deferred [publish], or a
    message of the Redis subscriber, line 150). *)
Inductive input :=
| Connect (ws : nat) (url : req_url)
| Close (ws : nat)
| Emit (channel : string) (msg : text).

Definition step (e : Env) (st : State) (i : input) : State * list effect :=
  match i with
  | Connect ws url => on_connection e st ws url
  | Close ws => on_close e st ws
  | Emit channel msg => (st, emit st channel msg)
  end.

Fixpoint run (e : Env) (st : State) (inputs : list input) : State * list effect :=
  match inputs with
  | [] => (st, [])
  | i :: rest =>
      let '(st1, effs1) := step e st i in
      let '(st2, effs2) := run e st1 rest in
      (st2, effs1 ++ effs2)
  end.

(** The request names a room: [roomId] is present and not empty. *)
Definition carries_room (url : req_url) : Prop :=
  exists r : string, url = Url (Some r) /\ r <> "".

(** Socket [ws] is unknown to the registry: no room lists it, no listener
    of the local bus sends to it and none of its handlers is attached. *)
Definition absent (st : State) (ws : nat) : Prop :=
  (forall channel : string, ws ∉ listeners st channel)
  /\ (forall (r : string) (s : gset nat), roomSubscribers st !! r = Some s -> ws ∉ s)
  /\ handlers st !! ws = None.

End Registry.

(** ** The persistence consumers *)

Module Worker.

Inductive outcome :=
| Returned
| Thrown (what : string).

(** What a consumer does, in order. *)
Inductive event :=
| Trim (n : nat)                  (* redis.ltrim(QUEUE_NAME, n, -1) *)
| ResolveOffset (offset : nat)    (* resolveOffset(message.offset) *)
| Heartbeat
| Insert (data : list Prisma.CommentCreateInput) (ok : bool)
| DeadLetter (msgs : list text)   (* redis.rpush(DLQ_NAME, ...msgs) *)
| Log (what : string).

Inductive verdict :=
| Valid (c : Prisma.CommentCreateInput)
| BadStructure
| BadJson.

(** The body of the per-message [try] of both consumers: parse, check that
    [videoId], [userId] and [content] are truthy, and keep these three
    fields as strings. *)
Definition validate (message : text) : verdict :=
  match JSON_parse message with
  | None => BadJson
  | Some j =>
      let commentData := Some j in
      if truthy commentData && truthy (get commentData "videoId")
         && truthy (get commentData "userId") && truthy (get commentData "content")
      then Valid {| Prisma.data_id := None;
                    Prisma.data_videoId := String_of (get commentData "videoId");
                    Prisma.data_userId := String_of (get commentData "userId");
                    Prisma.data_content := String_of (get commentData "content") |}
      else BadStructure
  end.

(** [JSON.stringify(c)] of an element of [validComments]. *)
Definition stringify_valid (c : Prisma.CommentCreateInput) : text :=
  JSON_stringify
    (JObj [("videoId", JStr (Prisma.data_videoId c));
           ("userId", JStr (Prisma.data_userId c));
           ("content", JStr (Prisma.data_content c))]).

(** *** The Redis-list consumer ([processBatch] and [startWorker]) *)

Definition QUEUE_NAME : string := "comments:queue".
Definition DLQ_NAME : string := "comments:queue:dlq".
Definition BATCH_SIZE : Z := 100.

Record World := {
  redis : Redis.Db;
  table : Prisma.Table
}.

(** What one run of [processBatch] takes from its environment: the store's
    clock and which of its network calls succeed. *)
Record Tick := {
  now : string;
  lrange_ok : bool;
  ltrim_ok : bool;
  insert_ok : bool;
  rpush_ok : bool
}.

(** The [for] loop of lines 35-51: [(validComments, invalidMessages)]. *)
Fixpoint classify (messages : list text)
  : list Prisma.CommentCreateInput * list text :=
  match messages with
  | [] => ([], [])
  | message :: rest =>
      let '(valid, invalid) := classify rest in
      match validate message with
      | Valid c => (c :: valid, invalid)
      | BadStructure | BadJson => (valid, message :: invalid)
      end
  end.

Section WithDefaultId.

Variable default_id : nat -> string.

(** Lines 74-79, reached when the insert was skipped or succeeded. *)
Definition move_invalid (k : Tick) (w : World) (invalid : list text)
  : World * list event * outcome :=
  match invalid with
  | [] => (w, [], Returned)
  | _ :: _ =>
      if rpush_ok k
      then ({| redis := Redis.rpush (redis w) DLQ_NAME invalid; table := table w |},
            [DeadLetter invalid; Log "Moved invalid messages to DLQ."], Returned)
      else (w, [], Thrown "rpush")
  end.

(** The body of the outer [try] of [processBatch] (lines 25-79). *)
Definition processBatch_try (k : Tick) (w : World) : World * list event * outcome :=
  if negb (lrange_ok k) then (w, [], Thrown "lrange")
  else
    let messages := Redis.lrange (redis w) QUEUE_NAME 0 (BATCH_SIZE - 1) in
    match messages with
    | [] => (w, [], Returned)
    | _ :: _ =>
        if negb (ltrim_ok k) then (w, [], Thrown "ltrim")
        else
          let w1 := {| redis := Redis.ltrim (redis w) QUEUE_NAME
                                  (Z.of_nat (length messages)) (-1);
                       table := table w |} in
          let trimmed := [Trim (length messages)] in
          let '(validComments, invalidMessages) := classify messages in
          match validComments with
          | [] =>
              let '(w2, evs, o) := move_invalid k w1 invalidMessages in
              (w2, trimmed ++ evs, o)
          | _ :: _ =>
              if insert_ok k then
                let '(t, _) := Prisma.createMany default_id (now k) (table w1) validComments in
                let w2 := {| redis := redis w1; table := t |} in
                let '(w3, evs, o) := move_invalid k w2 invalidMessages in
                (w3,
                 trimmed ++ [Insert validComments true; Log "Successfully persisted comments."]
                 ++ evs, o)
              else
                let failed := trimmed ++ [Insert validComments false;
                                          Log "Database batch insert failed. Moving batch to DLQ."] in
                let allBatchMessages := (stringify_valid <$> validComments) ++ invalidMessages in
                match allBatchMessages with
                | [] => (w1, failed, Returned)
                | _ :: _ =>
                    if rpush_ok k
                    then ({| redis := Redis.rpush (redis w1) DLQ_NAME allBatchMessages;
                             table := table w1 |},
                          failed ++ [DeadLetter allBatchMessages], Returned)
                    else (w1, failed, Thrown "rpush")
                end
          end
    end.

(** [processBatch]: the outer [catch] logs whatever was thrown. *)
Definition processBatch (k : Tick) (w : World) : World * list event * outcome :=
  let '(w', evs, o) := processBatch_try k w in
  match o with
  | Returned => (w', evs, Returned)
  | Thrown _ => (w', evs ++ [Log "An unexpected error occurred in worker"], Returned)
  end.

(** [startWorker]: one iteration of [while (true)] per element of [ticks];
    an exception out of [processBatch] would end the loop.  Returns the
    number of iterations completed. *)
Fixpoint startWorker (ticks : list Tick) (w : World) : World * list event * nat :=
  match ticks with
  | [] => (w, [], 0%nat)
  | k :: rest =>
      let '(w1, evs1, o) := processBatch k w in
      match o with
      | Thrown _ => (w1, evs1, 0%nat)
      | Returned =>
          let '(w2, evs2, n) := startWorker rest w1 in
          (w2, evs1 ++ evs2, S n)
      end
  end.

(** *** The Kafka consumer ([eachBatch] of [worker.ts]) *)

(** A Kafka message: its offset and its value ([None] is a null value). *)
Record Message := {
  offset : nat;
  value : option text
}.

(** The [for] loop of lines 22-45.  [live] is the number of iterations for
    which [isRunning() && !isStale()] holds.  A message without a value
    makes [message.value.toString()] throw, inside the [catch] block too. *)
Fixpoint each_message (live : nat) (messages : list Message) {struct messages}
  : list Prisma.CommentCreateInput * list event * outcome :=
  match messages, live with
  | [], _ => ([], [], Returned)
  | _ :: _, O => ([], [], Returned)
  | message :: rest, S live' =>
      match value message with
      | None => ([], [], Thrown "TypeError")
      | Some v =>
          let '(valid, evs, o) := each_message live' rest in
          let acked := [ResolveOffset (offset message); Heartbeat] in
          match validate v with
          | Valid c => (c :: valid, acked ++ evs, o)
          | BadStructure =>
              (valid, Log "Invalid message structure, skipping" :: acked ++ evs, o)
          | BadJson =>
              (valid, Log "Failed to parse message, skipping" :: acked ++ evs, o)
          end
      end
  end.

(** [eachBatch] (lines 19-62); [ok] tells whether [createMany] succeeds.
    [heartbeat()] is taken to succeed. *)
Definition eachBatch (now : string) (live : nat) (ok : bool)
    (t : Prisma.Table) (batch : list Message) : Prisma.Table * list event * outcome :=
  let '(validComments, evs, o) := each_message live batch in
  match o with
  | Thrown what => (t, evs, Thrown what)
  | Returned =>
      match validComments with
      | [] => (t, evs, Returned)
      | _ :: _ =>
          if ok then
            let '(t', _) := Prisma.createMany default_id now t validComments in
            (t', evs ++ [Insert validComments true; Log "Successfully persisted comments."],
             Returned)
          else
            (t, evs ++ [Insert validComments false; Log "Database batch insert failed"],
             Returned)
      end
  end.

End WithDefaultId.

(** What the loop of [eachBatch] does for one message that has a value:
    a warning if the message is not valid, then the offset and the
    heartbeat. *)
Definition message_events (m : Message) : list event :=
  match value m with
  | None => []
  | Some v =>
      match validate v with
      | Valid _ => []
      | BadStructure => [Log "Invalid message structure, skipping"]
      | BadJson => [Log "Failed to parse message, skipping"]
      end ++ [ResolveOffset (offset m); Heartbeat]
  end.

(** The messages a run has written to the dead-letter destination. *)
Fixpoint dead_lettered (evs : list event) : list text :=
  match evs with
  | [] => []
  | DeadLetter msgs :: rest => msgs ++ dead_lettered rest
  | _ :: rest => dead_lettered rest
  end.

(** The offsets a run has resolved, and the batches it tried to insert. *)
Fixpoint resolved (evs : list event) : list nat :=
  match evs with
  | [] => []
  | ResolveOffset o :: rest => o :: resolved rest
  | _ :: rest => resolved rest
  end.

Fixpoint inserted (evs : list event) : list (list Prisma.CommentCreateInput) :=
  match evs with
  | [] => []
  | Insert data _ :: rest => data :: inserted rest
  | _ :: rest => inserted rest
  end.

(** The row the store makes of an input that carries no id. *)
Definition row_of (i now : string) (c : Prisma.CommentCreateInput) : Prisma.Comment :=
  {| Prisma.id := i; Prisma.videoId := Prisma.data_videoId c;
     Prisma.userId := Prisma.data_userId c; Prisma.content := Prisma.data_content c;
     Prisma.createdAt := now |}.

End Worker.

(** ** Orders on rows *)

Module Chrono.

(** [a] may stand before [b] in a list ordered by [createdAt], newest
    first, respectively oldest first. *)
Definition newer_first (a b : Prisma.Comment) : Prop :=
  String.leb (Prisma.createdAt b) (Prisma.createdAt a) = true.

Definition older_first (a b : Prisma.Comment) : Prop :=
  String.leb (Prisma.createdAt a) (Prisma.createdAt b) = true.

End Chrono.

(** ** From a handler's deferred emits to the sockets *)

Module Delivery.
Import Service Registry.

(** The [setImmediate(() => localBus.emit(channel, text))] callbacks that a
    handler's [publish] calls left behind, run on the registry [st]. *)
Fixpoint deliver_deferred (st : State) (effs : list effect) : list effect :=
  match effs with
  | [] => []
  | DeferEmit channel msg :: rest => emit st channel msg ++ deliver_deferred st rest
  | _ :: rest => deliver_deferred st rest
  end.

End Delivery.

(** ** The live-stream service: bearer tokens and ingest URLs *)

Module Live.
Import Service.

(** What [c.req.header('authorization')] and [c.req.header('Authorization')]
    return. *)
Record Headers := {
  h_authorization : option string;
  h_Authorization : option string
}.

(** [auth.startsWith('Bearer ') ? auth.slice(7) : ''] *)
Definition bearer_token (auth : string) : string :=
  if String.prefix "Bearer " auth
  then String.substring 7 (String.length auth - 7) auth
  else "".

(** [base.replace(/\/$/, '')]: one slash at the very end goes. *)
Fixpoint strip_slash (base : string) : string :=
  match base with
  | EmptyString => EmptyString
  | String c EmptyString => if Ascii.eqb c "/" then EmptyString else base
  | String c rest => String c (strip_slash rest)
  end.

(** A row of [liveStream], as far as the handlers below touch it. *)
Record LiveStream := {
  id : string;
  title : string;
  description : option string;
  ingestKey : string;
  authorId : string;
  status : string;
  playbackId : string
}.

(** The table, by id, and how many default ids have been handed out. *)
Record Streams := {
  rows : gmap string LiveStream;
  minted : nat
}.

(** What the service reads from its environment. *)
Record Bases := {
  RTMP_BASE : string;
  WEBRTC_BASE : string
}.

(** [`${RTMP_BASE.replace(/\/$/, '')}/live/${ingestKey}`] *)
Definition ingestUrl_of (b : Bases) (key : string) : string :=
  strip_slash (RTMP_BASE b) +:+ "/live/" +:+ key.

Section WithJwt.

(** [jwt.verify(token, secret)] for the configured secret: the decoded
    payload, or [None] when it throws. *)
Variable jwt_verify : string -> option json.

(** The generator behind the schema's default for [id]. *)
Variable default_id : nat -> string.

(** [verify(c)]: the user id, or [None] for [null]. *)
Definition verify (h : Headers) : option string :=
  let auth := str_or (h_authorization h) (str_or (h_Authorization h) "") in
  let token := bearer_token auth in
  if String.eqb token "" then None
  else
    match jwt_verify token with
    | None => None
    | Some decoded =>
        let sub := get (Some decoded) "sub" in
        if truthy sub then Some (String_of sub) else None
    end.

(** [GET /streams/:id/ingest] on a reachable store: status and body. *)
Definition get_ingest (b : Bases) (t : Streams) (h : Headers) (i : string)
  : nat * json :=
  match verify h with
  | None => (401%nat, JObj [("error", JStr "unauthorized")])
  | Some userId =>
      match rows t !! i with
      | None => (403%nat, JObj [("error", JStr "forbidden")])
      | Some s =>
          if String.eqb (authorId s) userId
          then (200%nat, JObj [("ingestUrl", JStr (ingestUrl_of b (ingestKey s)))])
          else (403%nat, JObj [("error", JStr "forbidden")])
      end
  end.

(** [z.object({ title: z.string().min(1), description: z.string().optional() })] *)
Definition createSchema_safeParse (body : json) : option (string * option string) :=
  match body with
  | JObj _ =>
      t ← z_string 1 None (get (Some body) "title");
      d ← z_string_optional (get (Some body) "description");
      Some (t, d)
  | _ => None
  end.

(** [POST /streams] on a reachable store; [key] is the ingest key the
    handler makes up from [Math.random()] and [Date.now()].  [None] is the
    exception of a [create] that hits an id in use. *)
Definition post_streams (b : Bases) (t : Streams) (h : Headers) (body : text)
    (key : string) : option (Streams * (nat * json)) :=
  match verify h with
  | None => Some (t, (401%nat, JObj [("error", JStr "unauthorized")]))
  | Some userId =>
      match createSchema_safeParse (default (JObj []) (JSON_parse body)) with
      | None => Some (t, (400%nat, JObj [("error", JStr "invalid body")]))
      | Some (ttl, descr) =>
          let ingestUrl := ingestUrl_of b key in
          let playback := strip_slash (WEBRTC_BASE b) +:+ "/live/" +:+ key in
          let i := default_id (minted t) in
          match rows t !! i with
          | Some _ => None
          | None =>
              let created := {| id := i; title := ttl; description := descr;
                                ingestKey := key; authorId := userId;
                                status := "LIVE"; playbackId := playback |} in
              Some ({| rows := <[i := created]> (rows t); minted := S (minted t) |},
                    (200%nat,
                     JObj [("id", JStr i); ("ingestKey", JStr key);
                           ("ingestUrl", JStr ingestUrl); ("status", JStr "LIVE");
                           ("playbackId", JStr playback)]))
          end
      end
  end.

End WithJwt.

End Live.

(** ** Sample configurations and inputs *)

Module Sample.
Import Policy Service.

(** The serialised record of a comment with the given id and body. *)
Definition entry (i body : string) : list (string * json) :=
  [("id", JStr i); ("videoId", JStr "v1"); ("userId", JStr "u1");
   ("content", JStr body); ("createdAt", JStr "2025-08-13T06:28:59.000Z")].



(** The cache of room [v1] (scope [live]) after three comments. *)
Definition three_cached : Redis.Db :=
  cache_writes Redis.empty (cache_key "live" "v1")
    [JSON_stringify (JObj (entry "a" "one")); JSON_stringify (JObj (entry "b" "two"));
     JSON_stringify (JObj (entry "c" "three"))].

(** [COMMENTS_PERSIST=all], no Redis. *)
Definition persist_all : Env :=
  {| COMMENTS_PERSIST := Some "all"; SAMPLE_RATE_number := Fin 0%Q; REDIS_URL := "" |}.

(** [COMMENTS_PERSIST] unset, no Redis. *)
Definition persist_none : Env :=
  {| COMMENTS_PERSIST := None; SAMPLE_RATE_number := Fin 0%Q; REDIS_URL := "" |}.

(** One request's environment: the id [randomUUID()] returns, the clock,
    the draw, and every network call succeeding. *)
Definition call : Call :=
  {| uuid := "3b241101-e2bb-4255-8caf-4136c566a962";
     now := "2025-08-13T06:28:59.000Z"; random := 0; send_ok := true;
     db_ok := true; db_now := "2025-08-13T06:28:59.005Z" |}.

(** [POST /comments?persist=1] with body
    [{"videoId":"v1","userId":"u1","content":"hi"}]. *)
Definition post_hi : PostReq :=
  {| q_persist := Some "1"; q_scope := None;
     body := Encoded (JObj [("videoId", JStr "v1"); ("userId", JStr "u1");
                            ("content", JStr "hi")]) |}.

(** [POST /comments] with body [{"videoId":"v1","userId":"u1","content":""}]. *)
Definition post_empty : PostReq :=
  {| q_persist := None; q_scope := None;
     body := Encoded (JObj [("videoId", JStr "v1"); ("userId", JStr "u1");
                            ("content", JStr "")]) |}.

(** The socket frame
    [{"type":"comment","videoId":"v1","userId":"u1","content":"hi"}]. *)
Definition frame_hi : text :=
  Encoded (JObj [("type", JStr "comment"); ("videoId", JStr "v1");
                 ("userId", JStr "u1"); ("content", JStr "hi")]).

(** The queue entry of a comment that was given id [a] at ingestion. *)
Definition queued_hi : text :=
  Encoded (JObj [("id", JStr "a"); ("videoId", JStr "v1"); ("userId", JStr "u1");
                 ("content", JStr "hi");
                 ("createdAt", JStr "2025-08-13T06:28:59.000Z")]).

(** What both consumers keep of it. *)
Definition kept_hi : Prisma.CommentCreateInput :=
  {| Prisma.data_id := None; Prisma.data_videoId := "v1";
     Prisma.data_userId := "u1"; Prisma.data_content := "hi" |}.

(** A text that [JSON.parse] rejects. *)
Definition garbage : text := Malformed "{oops".

(** A generator of default ids. *)
Definition cuid (n : nat) : string := "c" +:+ pretty n.

(** [REDIS_URL] set, persistence off. *)
Definition with_redis : Env :=
  {| COMMENTS_PERSIST := None; SAMPLE_RATE_number := Fin 0%Q;
     REDIS_URL := "rediss://cache.example:6379" |}.





(** A list queue holding the comment entry and the unparseable one, an
    empty dead-letter list and an empty table. *)
Definition two_queued : Worker.World :=
  {| Worker.redis := Redis.rpush Redis.empty Worker.QUEUE_NAME [queued_hi; garbage];
     Worker.table := Prisma.empty |}.

(** A run of [processBatch] during a storage outage, Redis being fine. *)
Definition outage : Worker.Tick :=
  {| Worker.now := "2025-08-13T06:29:00.000Z"; Worker.lrange_ok := true;
     Worker.ltrim_ok := true; Worker.insert_ok := false; Worker.rpush_ok := true |}.

(** The same two entries as a Kafka batch, at offsets 41 and 42. *)
Definition kafka_batch : list Worker.Message :=
  [{| Worker.offset := 41; Worker.value := Some queued_hi |};
   {| Worker.offset := 42; Worker.value := Some garbage |}].

(** A table with two comments of room [v1], the newer one inserted first,
    and one of room [v2]. *)
Definition stored : Prisma.Table :=
  {| Prisma.rows :=
       [{| Prisma.id := "c0"; Prisma.videoId := "v1"; Prisma.userId := "u1";
           Prisma.content := "second"; Prisma.createdAt := "2025-08-13T06:30:00.000Z" |};
        {| Prisma.id := "c1"; Prisma.videoId := "v2"; Prisma.userId := "u2";
           Prisma.content := "elsewhere"; Prisma.createdAt := "2025-08-13T06:29:30.000Z" |};
        {| Prisma.id := "c2"; Prisma.videoId := "v1"; Prisma.userId := "u2";
           Prisma.content := "first"; Prisma.createdAt := "2025-08-13T06:29:00.000Z" |}];
     Prisma.minted := 3 |}.

(** A token service that accepts the token [good] as user [u1]. *)
Definition jwt (token : string) : option json :=
  if String.eqb token "good" then Some (JObj [("sub", JStr "u1")]) else None.

Definition bearer_good : Live.Headers :=
  {| Live.h_authorization := Some "Bearer good"; Live.h_Authorization := None |}.

Definition bases : Live.Bases :=
  {| Live.RTMP_BASE := "rtmp://localhost:1935/"; Live.WEBRTC_BASE := "webrtc://localhost" |}.

Definition no_streams : Live.Streams := {| Live.rows := ∅; Live.minted := 0 |}.

End Sample.

(* ===================================================================== *)
(** * Part II: properties                                                 *)
(* ===================================================================== *)

Import Policy Service.

(** ** Persistence policy *)






(** ** Hot cache *)

Lemma range_prefix (l : list text) (n : nat) :
  (0 < n)%nat -> Redis.range l 0 (Z.of_nat n - 1) = take n l.
Proof.
  intros Hn. unfold Redis.range.
  replace (0 <? 0)%Z with false by reflexivity.
  replace (Z.of_nat n - 1 <? 0)%Z with false by (symmetry; apply Z.ltb_ge; lia).
  destruct (Z.ltb_spec (Z.min (Z.of_nat n - 1) (Z.of_nat (length l) - 1)) 0) as [Hlt|Hge].
  - assert (length l = 0%nat) as Hl by lia.
    apply length_zero_iff_nil in Hl. subst l. by rewrite take_nil.
  - change (Z.to_nat 0) with 0%nat. rewrite drop_0.
    destruct (Nat.le_gt_cases n (length l)) as [Hle|Hgt].
    + f_equal. lia.
    + rewrite !take_ge; [reflexivity | lia | lia].
Qed.

Lemma llist_set_list (db : Redis.Db) (key : string) (l : list text) :
  Redis.llist (Redis.set_list db key l) key = l.
Proof. unfold Redis.llist, Redis.set_list. simpl. by rewrite lookup_insert_eq. Qed.

Lemma llist_expire (db : Redis.Db) (key key' : string) (s : Z) :
  Redis.llist (Redis.expire db key s) key' = Redis.llist db key'.
Proof. unfold Redis.expire. by destruct (Redis.llist db key). Qed.

Lemma llist_cache_write (db : Redis.Db) (key : string) (entry : text) :
  Redis.llist (cache_write db key entry) key
  = take CACHE_CAP (entry :: Redis.llist db key).
Proof.
  unfold cache_write. rewrite llist_expire.
  unfold Redis.ltrim, Redis.lpush. rewrite !llist_set_list.
  exact (range_prefix _ 500 ltac:(lia)).
Qed.



Lemma as_integer_eq (q : Q) (n : Z) : as_integer q = Some n -> (q == inject_Z n)%Q.
Proof.
  unfold as_integer. destruct (Pos.eqb_spec (Qden (Qred q)) 1) as [Hd|]; [|discriminate].
  intros [= <-]. rewrite <- (Qred_correct q) at 1.
  destruct (Qred q) as [a b]. simpl in *. subst b. reflexivity.
Qed.

Lemma as_integer_of (q : Q) (z : Z) : (q == inject_Z z)%Q -> as_integer q = Some z.
Proof.
  intros H. unfold as_integer. rewrite (Qred_complete _ _ H).
  assert (Qred (inject_Z z) = inject_Z z) as ->; [|reflexivity].
  unfold Qred, inject_Z.
  pose proof (Z.ggcd_gcd z 1) as Hg. pose proof (Z.ggcd_correct_divisors z 1) as Hd.
  destruct (Z.ggcd z 1) as [g [a b]]. simpl in *.
  rewrite Z.gcd_1_r in Hg. subst g. destruct Hd as [Ha Hb].
  replace a with z by lia. replace b with 1%Z by lia. reflexivity.
Qed.

Lemma limit_of_range (n : jsnum Q) : (0 < limit_of n)%Q /\ (limit_of n <= 1000)%Q.
Proof.
  unfold limit_of. destruct n as [| | |q]; try (split; [reflexivity | discriminate]).
  destruct (Qeq_bool (Qmin (Qmax q 0) 1000) 0) eqn:E; [split; [reflexivity | discriminate]|].
  apply Qeq_bool_neq in E.
  destruct (Q.max_spec q 0) as [[? Hm]|[? Hm]],
           (Q.min_spec (Qmax q 0) 1000) as [[? Hn]|[? Hn]];
    rewrite Hn in *; rewrite ?Hm in *; split; lra.
Qed.


Lemma integral_limit_range (L : jsnum Q) (n : Z) :
  as_integer (limit_of L) = Some n -> (1 <= n <= 1000)%Z.
Proof.
  intros H. apply as_integer_eq in H. destruct (limit_of_range L) as [H0 H1].
  rewrite H in H0, H1. unfold Qlt, Qle in *. simpl in *. lia.
Qed.



Lemma recent_cached (db : Redis.Db) (table : Prisma.Table) (videoId : string)
    (L : jsnum Q) (scope : option string) (n : Z) :
  as_integer (limit_of L) = Some n ->
  Redis.llist db (cache_key (toLowerCase (str_or scope "live")) videoId) <> [] ->
  recent (Some db) table videoId L scope
  = Some (reverse (parse_entries
                     (take (Z.to_nat n)
                        (Redis.llist db
                           (cache_key (toLowerCase (str_or scope "live")) videoId))))).
Proof.
  intros Hn Hne. pose proof (integral_limit_range L n Hn) as HL.
  unfold recent, Redis.lrange. rewrite Hn.
  replace (n - 1)%Z with (Z.of_nat (Z.to_nat n) - 1)%Z by lia.
  rewrite range_prefix by lia.
  destruct (Redis.llist db _) as [|x l] eqn:E; [done|].
  destruct (Z.to_nat n) as [|k] eqn:Ek; [lia|].
  reflexivity.
Qed.

Lemma recent_from_store (cache : option Redis.Db) (table : Prisma.Table)
    (videoId : string) (L : jsnum Q) (scope : option string) (n : Z) :
  as_integer (limit_of L) = Some n ->
  (forall db, cache = Some db ->
     Redis.llist db (cache_key (toLowerCase (str_or scope "live")) videoId) = []) ->
  recent cache table videoId L scope
  = Some (reverse (Prisma.to_json <$> Prisma.findMany_desc table videoId (Z.to_nat n))).
Proof.
  intros Hn Hmiss. pose proof (integral_limit_range L n Hn) as HL.
  unfold recent. rewrite Hn.
  assert (match cache with
          | Some db => Redis.lrange db (cache_key (toLowerCase (str_or scope "live")) videoId)
                         0 (n - 1)
          | None => []
          end = []) as ->; [|reflexivity].
  destruct cache as [db|]; [|done].
  unfold Redis.lrange. rewrite (Hmiss db eq_refl).
  replace (n - 1)%Z with (Z.of_nat (Z.to_nat n) - 1)%Z by lia.
  rewrite range_prefix by lia. apply take_nil.
Qed.





(** ** Room registry *)

Import Registry.

Lemma has_insert (subs : gmap string (gset nat)) (roomId : string) (s : gset nat) :
  has (<[roomId := s]> subs) roomId = true.
Proof. unfold has. by rewrite lookup_insert_eq. Qed.

Lemma on_connection_effects (e : Env) (st : State) (ws : nat) (url : req_url) :
  (on_connection e st ws url).2 = [] \/ (on_connection e st ws url).2 = [WsClose ws].
Proof.
  unfold on_connection. destruct url as [|q]; [by right|].
  destruct (String.eqb (str_or q "") ""); [by right|].
  left. simpl. unfold ensureSubscribeRoom. rewrite has_insert.
  by destruct (redis_on e).
Qed.

Lemma on_close_effects (e : Env) (st : State) (ws : nat) (c : string) :
  RedisSubscribe c ∉ (on_close e st ws).2.
Proof.
  unfold on_close. destruct (handlers st !! ws) as [roomId|]; [|simpl; set_solver].
  destruct (roomSubscribers st !! roomId) as [set|]; [|simpl; set_solver].
  case_bool_decide; simpl; [|set_solver].
  destruct (redis_on e); set_solver.
Qed.

Lemma emit_effects (st : State) (channel : string) (msg : text) (c : string) :
  RedisSubscribe c ∉ emit st channel msg.
Proof.
  unfold emit. intros H. apply list_elem_of_fmap in H as (w & Hw & _). discriminate.
Qed.

(** C4.  Whatever happens to the registry (sockets joining rooms, first
    or not, sockets leaving, messages being emitted), no subscription to a
    distributed channel is ever issued: [ensureSubscribeRoom] runs after
    the room has been entered into [roomSubscribers], so its guard never
    holds. *)
Theorem subscribe_never_issued (e : Env) (inputs : list input) (st : State) (c : string) :
  RedisSubscribe c ∉ (run e st inputs).2.
Proof.
  revert st. induction inputs as [|i rest IH]; intros st; [simpl; set_solver|].
  simpl. destruct (step e st i) as [st1 effs1] eqn:E1.
  specialize (IH st1). destruct (run e st1 rest) as [st2 effs2]. simpl in *.
  rewrite elem_of_app. intros [H|H]; [|exact (IH H)].
  assert (effs1 = (step e st i).2) as -> by (by rewrite E1).
  destruct i as [ws url|ws|channel msg]; simpl in H.
  - destruct (on_connection_effects e st ws url) as [Heq|Heq];
      rewrite Heq in H; set_solver.
  - exact (on_close_effects e st ws c H).
  - exact (emit_effects st channel msg c H).
Qed.

(** The first socket of room [r1] joins and leaves an instance that has a
    Redis subscriber: the only command issued is the unsubscription. *)
Lemma first_join_then_leave :
  (run Sample.with_redis init [Connect 1 (Url (Some "r1"))]).2 = []
  /\ (run Sample.with_redis init [Connect 1 (Url (Some "r1")); Close 1]).2
     = [RedisUnsubscribe "room:r1"].
Proof. split; vm_compute; reflexivity. Qed.

Lemma roomless_closed (e : Env) (st : State) (ws : nat) (url : req_url) :
  ~ carries_room url -> on_connection e st ws url = (st, [WsClose ws]).
Proof.
  intros Hno. unfold on_connection. destruct url as [|[r|]]; try reflexivity.
  simpl. destruct (String.eqb_spec r "") as [->|Hr]; [reflexivity|].
  rewrite (proj2 (String.eqb_neq r "") Hr).
  exfalso. apply Hno. exists r. done.
Qed.

Lemma remove_first_elem (n x : nat) (l : list nat) :
  x ∈ remove_first n l -> x ∈ l.
Proof.
  induction l as [|y l IH]; simpl; [done|].
  destruct (Nat.eqb y n); set_solver.
Qed.

Lemma off_elem (n x : nat) (l : list nat) : x ∈ off l n -> x ∈ l.
Proof.
  unfold off. rewrite elem_of_reverse. intros H.
  apply remove_first_elem in H. by apply elem_of_reverse.
Qed.

Lemma joined_absent (e : Env) (st : State) (ws ws' : nat) (r : string) :
  r <> "" -> ws' <> ws -> absent st ws ->
  absent (on_connection e st ws' (Url (Some r))).1 ws
  /\ forall msg, WsSend ws msg ∉ (on_connection e st ws' (Url (Some r))).2.
Proof.
  intros Hr Hne (Hbus & Hsubs & Hhs). unfold on_connection. simpl.
  destruct (String.eqb_spec r "") as [->|_]; [done|].
  rewrite (proj2 (String.eqb_neq r "") Hr). simpl. split.
  - split; [|split]; simpl.
    + intros channel. unfold listeners at 1. simpl.
      destruct (decide ("room:" +:+ r = channel)) as [<-|Hc].
      * rewrite lookup_insert_eq. simpl. rewrite elem_of_app.
        intros [H|H]; [exact (Hbus _ H)|]. set_solver.
      * rewrite lookup_insert_ne by done. apply Hbus.
    + intros r' s. destruct (decide (r = r')) as [<-|Hr'].
      * rewrite lookup_insert_eq. intros [= <-].
        rewrite elem_of_union, elem_of_singleton. intros [H|H]; [congruence|].
        unfold has in H. destruct (roomSubscribers st !! r) as [s0|] eqn:E.
        -- rewrite E in H. simpl in H. exact (Hsubs _ _ E H).
        -- rewrite lookup_insert_eq in H. simpl in H. set_solver.
      * rewrite lookup_insert_ne by done.
        unfold has. destruct (roomSubscribers st !! r) as [s0|] eqn:E.
        -- apply Hsubs.
        -- rewrite lookup_insert_ne by done. apply Hsubs.
    + rewrite lookup_insert_ne by done. exact Hhs.
  - intros msg. unfold ensureSubscribeRoom. rewrite has_insert.
    destruct (redis_on e); simpl; set_solver.
Qed.

Lemma closed_absent (e : Env) (st : State) (ws ws' : nat) :
  absent st ws ->
  absent (on_close e st ws').1 ws /\ forall msg, WsSend ws msg ∉ (on_close e st ws').2.
Proof.
  intros (Hbus & Hsubs & Hhs). unfold on_close.
  destruct (handlers st !! ws') as [r|] eqn:Eh; [|simpl; split; [done|set_solver]].
  assert (forall channel,
            ws ∉ default [] (<["room:" +:+ r := off (listeners st ("room:" +:+ r)) ws']>
                               (localBus st) !! channel)) as Hbus'.
  { intros channel. destruct (decide ("room:" +:+ r = channel)) as [<-|Hc].
    - rewrite lookup_insert_eq. simpl. intros H. apply off_elem in H. exact (Hbus _ H).
    - rewrite lookup_insert_ne by done. apply Hbus. }
  assert (delete ws' (handlers st) !! ws = None) as Hhs'.
  { destruct (decide (ws' = ws)) as [->|Hw];
      [apply lookup_delete_eq | by rewrite lookup_delete_ne]. }
  destruct (roomSubscribers st !! r) as [set|] eqn:Es.
  - case_bool_decide as Hsz; simpl.
    + split.
      * split; [exact Hbus'|]. split; [|exact Hhs']. simpl.
        intros r' s. destruct (decide (r = r')) as [<-|Hr'].
        -- by rewrite lookup_delete_eq.
        -- rewrite lookup_delete_ne by done. apply Hsubs.
      * intros msg. destruct (redis_on e); set_solver.
    + split.
      * split; [exact Hbus'|]. split; [|exact Hhs']. simpl.
        intros r' s. destruct (decide (r = r')) as [<-|Hr'].
        -- rewrite lookup_insert_eq. intros [= <-].
           rewrite elem_of_difference. intros [H _]. exact (Hsubs _ _ Es H).
        -- rewrite lookup_insert_ne by done. apply Hsubs.
      * intros msg. set_solver.
  - simpl. split; [|intros msg; set_solver].
    split; [exact Hbus'|]. split; [exact Hsubs|exact Hhs'].
Qed.

Lemma emit_absent (st : State) (ws : nat) (channel : string) (m msg : text) :
  absent st ws -> WsSend ws msg ∉ emit st channel m.
Proof.
  intros (Hbus & _) H. unfold emit in H.
  apply list_elem_of_fmap in H as (w & Hw & Hin).
  injection Hw as -> _. exact (Hbus _ Hin).
Qed.

Lemma step_absent (e : Env) (st : State) (i : input) (ws : nat) :
  absent st ws ->
  (forall u, i = Connect ws u -> ~ carries_room u) ->
  absent (step e st i).1 ws /\ forall msg, WsSend ws msg ∉ (step e st i).2.
Proof.
  intros Habs Hi. destruct i as [ws' url|ws'|channel m]; simpl.
  - destruct url as [|[r|]].
    + simpl. split; [done|set_solver].
    + destruct (String.eqb_spec r "") as [->|Hr].
      * simpl. split; [done|set_solver].
      * apply joined_absent; [done| |done].
        intros ->. apply (Hi _ eq_refl). exists r. done.
    + simpl. split; [done|set_solver].
  - by apply closed_absent.
  - split; [done|]. intros msg. by apply emit_absent.
Qed.

Lemma run_absent (e : Env) (inputs : list input) (st : State) (ws : nat) :
  absent st ws ->
  Forall (fun i => forall u, i = Connect ws u -> ~ carries_room u) inputs ->
  absent (run e st inputs).1 ws /\ forall msg, WsSend ws msg ∉ (run e st inputs).2.
Proof.
  revert st. induction inputs as [|i rest IH]; intros st Habs Hall.
  - simpl. split; [done|set_solver].
  - inversion Hall as [|? ? Hi Hrest]; subst.
    destruct (step_absent e st i ws Habs Hi) as [Habs1 Hsend1].
    simpl. destruct (step e st i) as [st1 effs1].
    specialize (IH st1 Habs1 Hrest).
    destruct (run e st1 rest) as [st2 effs2]. simpl in *.
    destruct IH as [Habs2 Hsend2]. split; [exact Habs2|].
    intros msg. rewrite elem_of_app. intros [H|H]; [exact (Hsend1 _ H)|exact (Hsend2 _ H)].
Qed.

(** C10.  A connection whose URL names no room (no [roomId], an empty one,
    or a URL that does not parse) is closed at once and leaves the registry
    as it was; and as long as that socket does not come back with a room,
    whatever else happens it stays out of every room and every listener
    list, and nothing is ever sent to it. *)
Theorem roomless_connection_never_served (e : Env) (st : State) (ws : nat)
    (url : req_url) (later : list input)
    (Hurl : ~ carries_room url)
    (Hnew : absent st ws)
    (Hlater : Forall (fun i => forall u, i = Connect ws u -> ~ carries_room u) later) :
  on_connection e st ws url = (st, [WsClose ws])
  /\ absent (run e st (Connect ws url :: later)).1 ws
  /\ forall msg, WsSend ws msg ∉ (run e st (Connect ws url :: later)).2.
Proof.
  split; [by apply roomless_closed|].
  apply run_absent; [exact Hnew|].
  constructor; [|exact Hlater]. intros u [= ->]. exact Hurl.
Qed.

Lemma roomless_connection_never_served_witness :
  let later := [Connect 1 (Url (Some "r1")); Emit "room:r1" (Malformed "ping"); Close 1] in
  on_connection Sample.with_redis init 7 (Url None) = (init, [WsClose 7])
  /\ absent (run Sample.with_redis init (Connect 7 (Url None) :: later)).1 7
  /\ forall msg, WsSend 7 msg ∉ (run Sample.with_redis init (Connect 7 (Url None) :: later)).2.
Proof.
  apply (roomless_connection_never_served Sample.with_redis init 7 (Url None)
           [Connect 1 (Url (Some "r1")); Emit "room:r1" (Malformed "ping"); Close 1]).
  - intros (r & H & _). discriminate H.
  - split; [|split].
    + intros channel H. unfold listeners, init in H. simpl in H.
      rewrite lookup_empty in H. simpl in H. by apply not_elem_of_nil in H.
    + intros r s H. unfold init in H. simpl in H. by rewrite lookup_empty in H.
    + reflexivity.
  - repeat constructor; intros u H; discriminate H.
Defined.

(** ** Ingestion *)

Lemma post_comments_accepted (e : Env) (c : Call) (r : PostReq) (p : CreateBody) :
  parsed r = Some p ->
  let temp := temp_of c (videoId p) (userId p) (content p)
                (JStr <$> replyToId p) (JStr <$> replyToUserId p) in
  post_comments e c r
  = (if shouldPersist e (forcePersist r p) (random c)
     then KafkaSend TOPIC_COMMENTS (videoId p) (JSON_stringify temp)
          :: (if send_ok c then [] else [LogError "[kafka] failed to produce message"])
     else [])
    ++ publish e (videoId p) (broadcast "comment" temp)
    ++ (if truthy (JStr <$> replyToUserId p)
        then publish e ("user:" +:+ default "" (replyToUserId p)) (broadcast "reply" temp)
        else [])
    ++ (if redis_on e
        then [DeferCacheWrite
                (cache_key (toLowerCase (str_or (q_scope r) "live")) (videoId p))
                (JSON_stringify temp)]
        else [])
    ++ [Respond 200 temp].
Proof. intros Hp. unfold post_comments. rewrite Hp. reflexivity. Qed.

Lemma publish_emits (e : Env) (roomId : string) (payload : json) :
  DeferEmit ("room:" +:+ roomId) (JSON_stringify payload) ∈ publish e roomId payload.
Proof. unfold publish. destruct (redis_on e); set_solver. Qed.

Lemma publish_only_broadcasts (e : Env) (roomId : string) (payload : json) (x : effect) :
  x ∈ publish e roomId payload -> is_broadcast x = true.
Proof.
  unfold publish. destruct (redis_on e); simpl; intros H.
  - apply elem_of_cons in H as [->|H]; [reflexivity|].
    apply list_elem_of_singleton in H as ->. reflexivity.
  - apply list_elem_of_singleton in H as ->. reflexivity.
Qed.

(** C5.  On the HTTP path a persist-eligible submission is enqueued first:
    the handler awaits [producer.send] and only then broadcasts, so the
    broadcast comes after the persistence attempt.  The handler itself
    never writes to the store, and its response is its last effect. *)
Theorem enqueue_precedes_broadcast (e : Env) (c : Call) (r : PostReq) (p : CreateBody)
    (Hp : parsed r = Some p)
    (Hs : shouldPersist e (forcePersist r p) (random c) = true) :
  let temp := temp_of c (videoId p) (userId p) (content p)
                (JStr <$> replyToId p) (JStr <$> replyToUserId p) in
  (exists rest,
      post_comments e c r
      = KafkaSend TOPIC_COMMENTS (videoId p) (JSON_stringify temp) :: rest
      /\ DeferEmit ("room:" +:+ videoId p) (JSON_stringify (broadcast "comment" temp)) ∈ rest)
  /\ (forall d, DbCreate d ∉ post_comments e c r)
  /\ last (post_comments e c r) = Some (Respond 200 temp).
Proof.
  intros temp. rewrite (post_comments_accepted e c r p Hp). fold temp. rewrite Hs.
  split; [|split].
  - eexists. split; [reflexivity|].
    rewrite !elem_of_app. right. left. apply publish_emits.
  - intros d. rewrite !elem_of_app. intros [H|[H|[H|[H|H]]]].
    + destruct (send_ok c); set_solver.
    + apply publish_only_broadcasts in H. discriminate.
    + destruct (truthy _); [|set_solver].
      apply publish_only_broadcasts in H. discriminate.
    + destruct (redis_on e); set_solver.
    + set_solver.
  - rewrite !app_assoc. apply last_snoc.
Qed.

Lemma post_hi_parsed :
  parsed Sample.post_hi
  = Some {| videoId := "v1"; userId := "u1"; content := "hi";
            replyToId := None; replyToUserId := None; persist := None |}.
Proof. reflexivity. Qed.

Lemma enqueue_precedes_broadcast_witness :
  let p := {| videoId := "v1"; userId := "u1"; content := "hi";
              replyToId := None; replyToUserId := None; persist := None |} in
  let temp := temp_of Sample.call (videoId p) (userId p) (content p)
                (JStr <$> replyToId p) (JStr <$> replyToUserId p) in
  (exists rest,
      post_comments Sample.persist_none Sample.call Sample.post_hi
      = KafkaSend TOPIC_COMMENTS (videoId p) (JSON_stringify temp) :: rest
      /\ DeferEmit ("room:" +:+ videoId p) (JSON_stringify (broadcast "comment" temp)) ∈ rest)
  /\ (forall d, DbCreate d ∉ post_comments Sample.persist_none Sample.call Sample.post_hi)
  /\ last (post_comments Sample.persist_none Sample.call Sample.post_hi)
     = Some (Respond 200 temp).
Proof.
  apply (enqueue_precedes_broadcast Sample.persist_none Sample.call Sample.post_hi
           {| videoId := "v1"; userId := "u1"; content := "hi";
              replyToId := None; replyToUserId := None; persist := None |}).
  - reflexivity.
  - reflexivity.
Defined.

(** The effects of that request, in order: enqueue, broadcast, response. *)
Lemma post_hi_effects :
  post_comments Sample.persist_none Sample.call Sample.post_hi
  = let temp := JObj (("id", JStr "3b241101-e2bb-4255-8caf-4136c566a962")
                      :: ("videoId", JStr "v1") :: ("userId", JStr "u1")
                      :: ("content", JStr "hi")
                      :: [("createdAt", JStr "2025-08-13T06:28:59.000Z")]) in
    [KafkaSend "comments" "v1" (Encoded temp);
     DeferEmit "room:v1" (Encoded (JObj [("type", JStr "comment"); ("item", temp)]));
     Respond 200 temp].
Proof. vm_compute. reflexivity. Qed.

Lemma save_effects (default_id : nat -> string) (e : Env) (c : Call)
    (table : Prisma.Table) (d : Prisma.CommentCreateInput) (temp : json) (x : effect) :
  x ∈ (save default_id e c table d temp).2 ->
  x = DbCreate d \/ x = LogError "[db] persist failed".
Proof.
  unfold save. destruct (shouldPersist_ws e (random c)); [|simpl; set_solver].
  destruct (if db_ok c then _ else _) as [[table' row]|]; simpl; set_solver.
Qed.

(** C9.  No frame received on a socket is ever enqueued: whatever the
    frame, the mode and the draw, the socket handler issues no
    [producer.send]. *)
Theorem socket_path_never_enqueues (default_id : nat -> string) (e : Env) (c : Call)
    (table : Prisma.Table) (raw : text) (topic key : string) (value : text) :
  KafkaSend topic key value ∉ (on_message default_id e c table raw).2.
Proof.
  unfold on_message. destruct (JSON_parse raw) as [j|]; [|simpl; set_solver].
  destruct (_ && _); [|simpl; set_solver].
  destruct (scope_of (Some j)) as [scope|]; [|simpl; set_solver].
  destruct (save default_id e c table _ _) as [[created table'] effs] eqn:Es.
  simpl. rewrite !elem_of_app. intros [H|[H|[H|H]]].
  - assert (effs = (save default_id e c table
                      {| Prisma.data_id := None;
                         Prisma.data_videoId := String_of (get (Some j) "videoId");
                         Prisma.data_userId := String_of (get (Some j) "userId");
                         Prisma.data_content :=
                           slice0 2000 (String_of (get (Some j) "content")) |}
                      (temp_of c (String_of (get (Some j) "videoId"))
                         (String_of (get (Some j) "userId"))
                         (slice0 2000 (String_of (get (Some j) "content")))
                         (get (Some j) "replyToId") (get (Some j) "replyToUserId"))).2)
      as Heq by (by rewrite Es).
    rewrite Heq in H. apply save_effects in H as [H|H]; discriminate H.
  - apply publish_only_broadcasts in H. discriminate H.
  - destruct (truthy _); [|set_solver].
    apply publish_only_broadcasts in H. discriminate H.
  - destruct (redis_on e); set_solver.
Qed.

(** The socket path orders its effects the same way: when the policy
    selects the record, the store write is the first effect of the frame
    and the broadcast follows it. *)
Lemma store_write_precedes_broadcast_ws (default_id : nat -> string) (e : Env)
    (c : Call) (table : Prisma.Table) (raw : text) :
  shouldPersist_ws e (random c) = true ->
  (on_message default_id e c table raw).2 = []
  \/ exists d rest,
       (on_message default_id e c table raw).2 = DbCreate d :: rest
       /\ existsb is_broadcast rest = true.
Proof.
  intros Hs. unfold on_message. destruct (JSON_parse raw) as [j|]; [|by left].
  destruct (_ && _); [|by left].
  destruct (scope_of (Some j)) as [scope|]; [|by left].
  right. unfold save. rewrite Hs.
  destruct (if db_ok c then _ else _) as [[table' row]|]; simpl.
  - eexists _, _. split; [reflexivity|].
    unfold publish. destruct (redis_on e); reflexivity.
  - eexists _, _. split; [reflexivity|].
    unfold publish. destruct (redis_on e); reflexivity.
Qed.

(** With [COMMENTS_PERSIST=all] a comment frame is written straight to the
    store, under an id the store generates, and that stored row is what is
    broadcast; nothing is enqueued. *)
Lemma frame_hi_effects :
  on_message Sample.cuid Sample.persist_all Sample.call Prisma.empty Sample.frame_hi
  = let d := {| Prisma.data_id := None; Prisma.data_videoId := "v1";
                Prisma.data_userId := "u1"; Prisma.data_content := "hi" |} in
    let row := {| Prisma.id := "c0"; Prisma.videoId := "v1"; Prisma.userId := "u1";
                  Prisma.content := "hi";
                  Prisma.createdAt := "2025-08-13T06:28:59.005Z" |} in
    ({| Prisma.rows := [row]; Prisma.minted := 1 |},
     [DbCreate d;
      DeferEmit "room:v1"
        (Encoded (JObj [("type", JStr "comment"); ("item", Prisma.to_json row)]))]).
Proof. vm_compute. reflexivity. Qed.

(** The HTTP path, for comparison: a persist-eligible record is enqueued on
    [comments] under its [videoId] as the key. *)
Lemma http_enqueues_under_room_key (e : Env) (c : Call) (r : PostReq) (p : CreateBody) :
  parsed r = Some p ->
  shouldPersist e (forcePersist r p) (random c) = true ->
  KafkaSend TOPIC_COMMENTS (videoId p)
    (JSON_stringify (temp_of c (videoId p) (userId p) (content p)
                       (JStr <$> replyToId p) (JStr <$> replyToUserId p)))
  ∈ post_comments e c r.
Proof.
  intros Hp Hs. rewrite (post_comments_accepted e c r p Hp), Hs. set_solver.
Qed.









(** ** The consumers *)

Import Worker.

Lemma validate_keeps_no_id (v : text) (c : Prisma.CommentCreateInput) :
  validate v = Valid c -> Prisma.data_id c = None.
Proof.
  unfold validate. destruct (JSON_parse v) as [j|]; [|discriminate].
  destruct (_ && _); [|discriminate]. intros [= <-]. reflexivity.
Qed.

Lemma each_message_single (live : nat) (m : Message) (v : text)
    (c : Prisma.CommentCreateInput) :
  value m = Some v -> validate v = Valid c ->
  each_message (S live) [m] = ([c], [ResolveOffset (offset m); Heartbeat], Returned).
Proof. intros Hv Hc. simpl. rewrite Hv, Hc. reflexivity. Qed.

Lemma createMany_single (default_id : nat -> string) (now : string)
    (t : Prisma.Table) (c : Prisma.CommentCreateInput) :
  Prisma.data_id c = None ->
  Prisma.has_id t (default_id (Prisma.minted t)) = false ->
  Prisma.createMany default_id now t [c]
  = ({| Prisma.rows := Prisma.rows t ++ [row_of (default_id (Prisma.minted t)) now c];
        Prisma.minted := S (Prisma.minted t) |}, 1%nat).
Proof.
  intros Hid Hfresh. simpl. unfold Prisma.materialise. rewrite Hid. simpl.
  rewrite Hfresh. reflexivity.
Qed.

Lemma eachBatch_single (default_id : nat -> string) (now : string) (live : nat)
    (t : Prisma.Table) (m : Message) (v : text) (c : Prisma.CommentCreateInput) :
  value m = Some v -> validate v = Valid c ->
  Prisma.has_id t (default_id (Prisma.minted t)) = false ->
  eachBatch default_id now (S live) true t [m]
  = ({| Prisma.rows := Prisma.rows t ++ [row_of (default_id (Prisma.minted t)) now c];
        Prisma.minted := S (Prisma.minted t) |},
     [ResolveOffset (offset m); Heartbeat; Insert [c] true;
      Log "Successfully persisted comments."], Returned).
Proof.
  intros Hv Hc Hfresh. unfold eachBatch.
  rewrite (each_message_single live m v c Hv Hc).
  rewrite (createMany_single default_id now t c (validate_keeps_no_id v c Hc) Hfresh).
  reflexivity.
Qed.

(** C1.  The same queue entry delivered twice to the Kafka consumer, both
    inserts succeeding, leaves two rows for the one comment: the consumer
    keeps [videoId], [userId] and [content] and drops the entry's id, so
    each delivery is inserted under a newly generated id and
    [skipDuplicates] has nothing to match. *)
Theorem redelivery_stores_two_rows (default_id : nat -> string) (now1 now2 : string)
    (t : Prisma.Table) (m : Message) (v : text) (c : Prisma.CommentCreateInput)
    (Hv : value m = Some v) (Hc : validate v = Valid c)
    (Hfresh1 : Prisma.has_id t (default_id (Prisma.minted t)) = false)
    (Hfresh2 : Prisma.has_id t (default_id (S (Prisma.minted t))) = false)
    (Hdistinct : default_id (Prisma.minted t) <> default_id (S (Prisma.minted t))) :
  let t1 := (eachBatch default_id now1 1 true t [m]).1.1 in
  let t2 := (eachBatch default_id now2 1 true t1 [m]).1.1 in
  Prisma.rows t2
  = Prisma.rows t ++ [row_of (default_id (Prisma.minted t)) now1 c;
                      row_of (default_id (S (Prisma.minted t))) now2 c].
Proof.
  intros t1 t2. subst t2 t1.
  rewrite (eachBatch_single default_id now1 0 t m v c Hv Hc Hfresh1). simpl.
  rewrite (eachBatch_single default_id now2 0 _ m v c Hv Hc).
  - simpl. by rewrite <- app_assoc.
  - simpl. unfold Prisma.has_id in *. simpl. rewrite existsb_app, Hfresh2. simpl.
    rewrite orb_false_r. by apply String.eqb_neq.
Qed.

Lemma redelivery_stores_two_rows_witness :
  let m := {| offset := 0; value := Some Sample.queued_hi |} in
  let t1 := (eachBatch Sample.cuid "t1" 1 true Prisma.empty [m]).1.1 in
  let t2 := (eachBatch Sample.cuid "t2" 1 true t1 [m]).1.1 in
  Prisma.rows t2
  = Prisma.rows Prisma.empty
    ++ [row_of (Sample.cuid (Prisma.minted Prisma.empty)) "t1" Sample.kept_hi;
        row_of (Sample.cuid (S (Prisma.minted Prisma.empty))) "t2" Sample.kept_hi].
Proof.
  apply (redelivery_stores_two_rows Sample.cuid "t1" "t2" Prisma.empty
           {| offset := 0; value := Some Sample.queued_hi |}
           Sample.queued_hi Sample.kept_hi).
  - reflexivity.
  - reflexivity.
  - reflexivity.
  - reflexivity.
  - vm_compute. discriminate.
Defined.

(** The Redis-list consumer does the same: the entry with id [a], fetched
    in two successive batches, ends up as rows [c0] and [c1]. *)
Lemma redelivery_list_consumer :
  let k := {| Worker.now := "t"; lrange_ok := true; ltrim_ok := true;
              insert_ok := true; rpush_ok := true |} in
  let w0 := {| redis := Redis.rpush Redis.empty QUEUE_NAME [Sample.queued_hi];
               table := Prisma.empty |} in
  let w1 := (processBatch Sample.cuid k w0).1.1 in
  let w2 := {| redis := Redis.rpush (redis w1) QUEUE_NAME [Sample.queued_hi];
               table := table w1 |} in
  Prisma.rows (table (processBatch Sample.cuid k w2).1.1)
  = [row_of "c0" "t" Sample.kept_hi; row_of "c1" "t" Sample.kept_hi].
Proof. vm_compute. reflexivity. Qed.

Lemma z_string_nonempty (hi : option nat) (v : option json) (s : string) :
  z_string 1 hi v = Some s -> s <> "".
Proof.
  unfold z_string. destruct v as [[| | |x| |]|]; try discriminate.
  destruct x; simpl; [discriminate|]. destruct (match hi with Some _ => _ | None => _ end);
    intros [= <-]; discriminate.
Qed.

Lemma parsed_nonempty (r : PostReq) (p : CreateBody) :
  parsed r = Some p -> videoId p <> "" /\ userId p <> "" /\ content p <> "".
Proof.
  unfold parsed, createSchema_safeParse.
  destruct (default (JObj []) (JSON_parse (body r))); try discriminate.
  intros H. simplify_option_eq. simpl.
  repeat split; eapply z_string_nonempty; eassumption.
Qed.

Lemma validate_temp (c : Call) (v u ct : string) (rt ru : option json) :
  v <> "" -> u <> "" -> ct <> "" ->
  validate (JSON_stringify (temp_of c v u ct rt ru))
  = Valid {| Prisma.data_id := None; Prisma.data_videoId := v;
             Prisma.data_userId := u; Prisma.data_content := ct |}.
Proof.
  intros Hv Hu Hc. unfold validate, temp_of. simpl.
  apply String.eqb_neq in Hv, Hu, Hc. rewrite Hv, Hu, Hc. reflexivity.
Qed.

(** C6.  The id assigned at ingestion on the HTTP path is the one that is
    broadcast and the one put on the queue, but the consumer's insert does
    not use it: the row stored for the entry carries the next id the store
    generates, whatever the ingestion id was. *)
Theorem consumer_discards_ingestion_id (default_id : nat -> string) (e : Env)
    (c : Call) (r : PostReq) (p : CreateBody) (at_ : string) (t : Prisma.Table)
    (Hp : parsed r = Some p)
    (Hs : shouldPersist e (forcePersist r p) (random c) = true)
    (Hfresh : Prisma.has_id t (default_id (Prisma.minted t)) = false) :
  let temp := temp_of c (videoId p) (userId p) (content p)
                (JStr <$> replyToId p) (JStr <$> replyToUserId p) in
  let kept := {| Prisma.data_id := None; Prisma.data_videoId := videoId p;
                 Prisma.data_userId := userId p; Prisma.data_content := content p |} in
  get (Some temp) "id" = Some (JStr (uuid c))
  /\ DeferEmit ("room:" +:+ videoId p) (JSON_stringify (broadcast "comment" temp))
     ∈ post_comments e c r
  /\ KafkaSend TOPIC_COMMENTS (videoId p) (JSON_stringify temp) ∈ post_comments e c r
  /\ Prisma.rows
       (eachBatch default_id at_ 1 true t
          [{| offset := 0; value := Some (JSON_stringify temp) |}]).1.1
     = Prisma.rows t ++ [row_of (default_id (Prisma.minted t)) at_ kept].
Proof.
  intros temp kept. destruct (parsed_nonempty r p Hp) as (Hv & Hu & Hc).
  split; [reflexivity|]. split; [|split].
  - rewrite (post_comments_accepted e c r p Hp). fold temp.
    rewrite !elem_of_app. right. left. apply publish_emits.
  - by apply http_enqueues_under_room_key.
  - rewrite (eachBatch_single default_id at_ 0 t _ (JSON_stringify temp) kept);
      [reflexivity | reflexivity | | exact Hfresh].
    by apply validate_temp.
Qed.

Lemma consumer_discards_ingestion_id_witness :
  let p := {| videoId := "v1"; userId := "u1"; content := "hi";
              replyToId := None; replyToUserId := None; persist := None |} in
  let temp := temp_of Sample.call (videoId p) (userId p) (content p)
                (JStr <$> replyToId p) (JStr <$> replyToUserId p) in
  let kept := {| Prisma.data_id := None; Prisma.data_videoId := videoId p;
                 Prisma.data_userId := userId p; Prisma.data_content := content p |} in
  get (Some temp) "id" = Some (JStr (uuid Sample.call))
  /\ DeferEmit ("room:" +:+ videoId p) (JSON_stringify (broadcast "comment" temp))
     ∈ post_comments Sample.persist_none Sample.call Sample.post_hi
  /\ KafkaSend TOPIC_COMMENTS (videoId p) (JSON_stringify temp)
     ∈ post_comments Sample.persist_none Sample.call Sample.post_hi
  /\ Prisma.rows
       (eachBatch Sample.cuid "2025-08-13T06:29:00.000Z" 1 true Prisma.empty
          [{| offset := 0; value := Some (JSON_stringify temp) |}]).1.1
     = Prisma.rows Prisma.empty
       ++ [row_of (Sample.cuid (Prisma.minted Prisma.empty))
             "2025-08-13T06:29:00.000Z" kept].
Proof.
  apply (consumer_discards_ingestion_id Sample.cuid Sample.persist_none Sample.call
           Sample.post_hi
           {| videoId := "v1"; userId := "u1"; content := "hi";
              replyToId := None; replyToUserId := None; persist := None |}
           "2025-08-13T06:29:00.000Z" Prisma.empty).
  - reflexivity.
  - reflexivity.
  - reflexivity.
Defined.

(** For that submission the id broadcast is the UUID of the request and the
    id stored is [c0]. *)
Lemma broadcast_id_differs_from_stored_id :
  let temp := temp_of Sample.call "v1" "u1" "hi" None None in
  get (Some temp) "id" = Some (JStr "3b241101-e2bb-4255-8caf-4136c566a962")
  /\ Prisma.id <$> Prisma.rows
       (eachBatch Sample.cuid "2025-08-13T06:29:00.000Z" 1 true Prisma.empty
          [{| offset := 0; value := Some (JSON_stringify temp) |}]).1.1
     = ["c0"].
Proof. split; vm_compute; reflexivity. Qed.

(** *** What the event lists contain *)

Lemma dead_lettered_app (a b : list event) :
  dead_lettered (a ++ b) = dead_lettered a ++ dead_lettered b.
Proof.
  induction a as [|x a IH]; [done|].
  destruct x; simpl; rewrite ?IH, ?app_assoc; reflexivity.
Qed.

Lemma resolved_app (a b : list event) : resolved (a ++ b) = resolved a ++ resolved b.
Proof. induction a as [|x a IH]; [done|]. destruct x; simpl; rewrite ?IH; reflexivity. Qed.

Lemma inserted_app (a b : list event) : inserted (a ++ b) = inserted a ++ inserted b.
Proof. induction a as [|x a IH]; [done|]. destruct x; simpl; rewrite ?IH; reflexivity. Qed.

Ltac step_each_message IH live :=
  let valid := fresh "valid" in
  let evs := fresh "evs" in
  let o := fresh "o" in
  simpl; destruct live as [|live]; [try done|];
  match goal with
  | |- context [value ?m] => destruct (value m) as [v|] eqn:?; [|try done]
  end;
  [ match goal with
    | |- context [each_message ?l ?rest] =>
        specialize (IH l); destruct (each_message l rest) as [[valid evs] o]
    end;
    match goal with
    | |- context [validate ?v] => destruct (validate v)
    end; simpl in * | .. ].

Lemma each_message_no_dead_letter (batch : list Message) (live : nat) :
  dead_lettered (each_message live batch).1.2 = [].
Proof.
  revert live. induction batch as [|m rest IH]; intros live; [done|].
  step_each_message IH live; exact IH.
Qed.

Lemma each_message_no_insert (batch : list Message) (live : nat) :
  inserted (each_message live batch).1.2 = [].
Proof.
  revert live. induction batch as [|m rest IH]; intros live; [done|].
  step_each_message IH live; exact IH.
Qed.

Lemma each_message_returns (batch : list Message) (live : nat) :
  Forall (fun m => value m <> None) batch ->
  (each_message live batch).2 = Returned.
Proof.
  revert live. induction batch as [|m rest IH]; intros live Hall; [done|].
  inversion Hall as [|? ? Hm Hrest]; subst.
  simpl. destruct live as [|live]; [done|].
  destruct (value m) as [v|]; [|done].
  specialize (IH live Hrest). destruct (each_message live rest) as [[valid evs] o].
  destruct (validate v); exact IH.
Qed.

Lemma each_message_resolved (batch : list Message) (live : nat) :
  Forall (fun m => value m <> None) batch ->
  (length batch <= live)%nat ->
  resolved (each_message live batch).1.2 = offset <$> batch.
Proof.
  revert live. induction batch as [|m rest IH]; intros live Hall Hlive; [done|].
  inversion Hall as [|? ? Hm Hrest]; subst.
  simpl in Hlive. simpl. destruct live as [|live]; [lia|].
  destruct (value m) as [v|]; [|done].
  specialize (IH live Hrest ltac:(lia)).
  destruct (each_message live rest) as [[valid evs] o].
  destruct (validate v); simpl in *; by rewrite IH.
Qed.

Lemma eachBatch_events (default_id : nat -> string) (now : string) (live : nat)
    (ok : bool) (t : Prisma.Table) (batch : list Message) :
  exists tail,
    (eachBatch default_id now live ok t batch).1.2 = (each_message live batch).1.2 ++ tail
    /\ resolved tail = [] /\ dead_lettered tail = [].
Proof.
  unfold eachBatch. destruct (each_message live batch) as [[valid evs] o].
  destruct o; [|exists []; by rewrite app_nil_r].
  destruct valid as [|c valid]; [exists []; by rewrite app_nil_r|].
  destruct ok.
  - destruct (Prisma.createMany _ _ _ _) as [t' n]. by eexists.
  - by eexists.
Qed.

Lemma eachBatch_failed_insert (default_id : nat -> string) (now : string) (live : nat)
    (t : Prisma.Table) (batch : list Message) :
  Forall (fun m => value m <> None) batch ->
  (eachBatch default_id now live false t batch).2 = Returned
  /\ (eachBatch default_id now live false t batch).1.1 = t
  /\ dead_lettered (eachBatch default_id now live false t batch).1.2 = [].
Proof.
  intros Hall. split; [|split].
  - pose proof (each_message_returns batch live Hall) as Hret.
    unfold eachBatch. destruct (each_message live batch) as [[valid evs] o].
    simpl in Hret. subst o. by destruct valid.
  - unfold eachBatch. destruct (each_message live batch) as [[valid evs] o].
    destruct o; [|done]. by destruct valid.
  - destruct (eachBatch_events default_id now live false t batch) as (tail & -> & _ & Htail).
    by rewrite dead_lettered_app, each_message_no_dead_letter, Htail.
Qed.

(** *** The list consumer *)

Lemma range_suffix (l : list text) (n : nat) :
  (n <= length l)%nat -> Redis.range l (Z.of_nat n) (-1) = drop n l.
Proof.
  intros Hn. unfold Redis.range.
  replace (Z.of_nat n <? 0)%Z with false by (symmetry; apply Z.ltb_ge; lia).
  replace (-1 <? 0)%Z with true by reflexivity.
  destruct (Z.ltb_spec (Z.min (Z.of_nat (length l) + -1) (Z.of_nat (length l) - 1))
              (Z.of_nat n)) as [Hlt|Hge].
  - rewrite drop_ge by lia. reflexivity.
  - rewrite Nat2Z.id. apply take_ge. rewrite length_drop. lia.
Qed.

Lemma llist_set_list_ne (db : Redis.Db) (key key' : string) (l : list text) :
  key <> key' -> Redis.llist (Redis.set_list db key l) key' = Redis.llist db key'.
Proof.
  intros Hne. unfold Redis.llist, Redis.set_list. simpl. by rewrite lookup_insert_ne.
Qed.

Lemma queue_is_not_dlq : QUEUE_NAME <> DLQ_NAME.
Proof. discriminate. Qed.

Lemma fetched (db : Redis.Db) :
  Redis.lrange db QUEUE_NAME 0 (BATCH_SIZE - 1) = take 100 (Redis.llist db QUEUE_NAME).
Proof. unfold Redis.lrange. exact (range_prefix _ 100 ltac:(lia)). Qed.

Lemma trimmed_queue (db : Redis.Db) (n : nat) :
  (n <= length (Redis.llist db QUEUE_NAME))%nat ->
  Redis.llist (Redis.ltrim db QUEUE_NAME (Z.of_nat n) (-1)) QUEUE_NAME
  = drop n (Redis.llist db QUEUE_NAME).
Proof. intros Hn. unfold Redis.ltrim. rewrite llist_set_list. by apply range_suffix. Qed.

Lemma trimmed_dlq (db : Redis.Db) (start stop : Z) :
  Redis.llist (Redis.ltrim db QUEUE_NAME start stop) DLQ_NAME = Redis.llist db DLQ_NAME.
Proof. unfold Redis.ltrim. apply llist_set_list_ne, queue_is_not_dlq. Qed.

Lemma pushed_dlq (db : Redis.Db) (msgs : list text) :
  Redis.llist (Redis.rpush db DLQ_NAME msgs) DLQ_NAME = Redis.llist db DLQ_NAME ++ msgs.
Proof. unfold Redis.rpush. apply llist_set_list. Qed.

Lemma pushed_queue (db : Redis.Db) (msgs : list text) :
  Redis.llist (Redis.rpush db DLQ_NAME msgs) QUEUE_NAME = Redis.llist db QUEUE_NAME.
Proof.
  unfold Redis.rpush. apply llist_set_list_ne. intros H. by apply queue_is_not_dlq.
Qed.

Lemma classify_length (messages : list text) :
  (length (classify messages).1 + length (classify messages).2)%nat = length messages.
Proof.
  induction messages as [|m rest IH]; [done|].
  simpl. destruct (classify rest) as [valid invalid].
  destruct (validate m); simpl in *; lia.
Qed.

Lemma processBatch_returns (default_id : nat -> string) (k : Tick) (w : World) :
  (processBatch default_id k w).2 = Returned.
Proof.
  unfold processBatch. destruct (processBatch_try default_id k w) as [[w' evs] o].
  by destruct o.
Qed.

Lemma startWorker_runs_every_tick (default_id : nat -> string) (ticks : list Tick)
    (w : World) :
  (startWorker default_id ticks w).2 = length ticks.
Proof.
  revert w. induction ticks as [|k rest IH]; intros w; [done|].
  simpl. pose proof (processBatch_returns default_id k w) as Hret.
  destruct (processBatch default_id k w) as [[w1 evs1] o]. simpl in Hret. subst o.
  specialize (IH w1). destruct (startWorker default_id rest w1) as [[w2 evs2] n].
  simpl in *. by rewrite IH.
Qed.

(** What [processBatch] does to a non-empty queue when the fetch and the
    trim succeed and the insert fails. *)
Lemma processBatch_failed_insert (default_id : nat -> string) (k : Tick) (w : World) :
  lrange_ok k = true -> ltrim_ok k = true -> insert_ok k = false ->
  let messages := take 100 (Redis.llist (redis w) QUEUE_NAME) in
  let valid := (classify messages).1 in
  let invalid := (classify messages).2 in
  let trimmed := Redis.ltrim (redis w) QUEUE_NAME (Z.of_nat (length messages)) (-1) in
  let failed := [Trim (length messages); Insert valid false;
                 Log "Database batch insert failed. Moving batch to DLQ."] in
  valid <> [] ->
  processBatch default_id k w
  = if rpush_ok k
    then ({| redis := Redis.rpush trimmed DLQ_NAME ((stringify_valid <$> valid) ++ invalid);
             table := table w |},
          failed ++ [DeadLetter ((stringify_valid <$> valid) ++ invalid)], Returned)
    else ({| redis := trimmed; table := table w |},
          failed ++ [Log "An unexpected error occurred in worker"], Returned).
Proof.
  intros Hl Ht Hi messages valid invalid trimmed failed Hvalid.
  unfold processBatch, processBatch_try. rewrite Hl, Ht, Hi, fetched. simpl negb.
  fold messages. subst trimmed failed valid invalid.
  destruct messages as [|m0 ms] eqn:Em; [done|]. rewrite <- Em in *.
  destruct (classify messages) as [valid invalid]. simpl in *.
  destruct valid as [|c valid]; [done|].
  simpl. destruct (rpush_ok k); reflexivity.
Qed.

Lemma processBatch_trims_first (default_id : nat -> string) (k : Tick) (w : World) :
  lrange_ok k = true -> ltrim_ok k = true ->
  Redis.llist (redis w) QUEUE_NAME <> [] ->
  let messages := take 100 (Redis.llist (redis w) QUEUE_NAME) in
  (exists rest, (processBatch default_id k w).1.2 = Trim (length messages) :: rest)
  /\ Redis.llist (redis (processBatch default_id k w).1.1) QUEUE_NAME
     = drop (length messages) (Redis.llist (redis w) QUEUE_NAME).
Proof.
  intros Hl Ht Hq messages.
  assert (length messages <= length (Redis.llist (redis w) QUEUE_NAME))%nat as Hlen
    by (subst messages; rewrite length_take; lia).
  pose proof (trimmed_queue (redis w) (length messages) Hlen) as Htrim.
  unfold processBatch, processBatch_try. rewrite Hl, Ht, fetched. simpl negb.
  fold messages.
  destruct messages as [|m0 ms] eqn:Em.
  { subst messages. destruct (Redis.llist (redis w) QUEUE_NAME); done. }
  rewrite <- Em in *. clear Em.
  destruct (classify messages) as [valid invalid].
  destruct valid as [|c valid].
  - unfold move_invalid. destruct invalid as [|i invalid]; simpl.
    + split; [by eexists | exact Htrim].
    + destruct (rpush_ok k); simpl.
      * split; [by eexists | by rewrite pushed_queue].
      * split; [by eexists | exact Htrim].
  - destruct (insert_ok k).
    + destruct (Prisma.createMany _ _ _ _) as [t' n].
      unfold move_invalid. destruct invalid as [|i invalid]; simpl.
      * split; [by eexists | exact Htrim].
      * destruct (rpush_ok k); simpl.
        -- split; [by eexists | by rewrite pushed_queue].
        -- split; [by eexists | exact Htrim].
    + simpl. destruct (rpush_ok k); simpl.
      * split; [by eexists | by rewrite pushed_queue].
      * split; [by eexists | exact Htrim].
Qed.

Lemma processBatch_all_ok (default_id : nat -> string) (k : Tick) (w : World) :
  lrange_ok k = true -> ltrim_ok k = true -> insert_ok k = true -> rpush_ok k = true ->
  let messages := take 100 (Redis.llist (redis w) QUEUE_NAME) in
  table (processBatch default_id k w).1.1
  = (Prisma.createMany default_id (now k) (table w) (classify messages).1).1
  /\ Redis.llist (redis (processBatch default_id k w).1.1) DLQ_NAME
     = Redis.llist (redis w) DLQ_NAME ++ (classify messages).2.
Proof.
  intros Hl Ht Hi Hr messages.
  unfold processBatch, processBatch_try. rewrite Hl, Ht, Hi, fetched. simpl negb.
  fold messages.
  destruct messages as [|m0 ms] eqn:Em; [simpl; by rewrite app_nil_r|].
  rewrite <- Em in *. clear Em.
  destruct (classify messages) as [valid invalid]. simpl fst. simpl snd.
  destruct valid as [|c valid].
  - unfold move_invalid. rewrite Hr. destruct invalid as [|i invalid]; simpl.
    + by rewrite trimmed_dlq, app_nil_r.
    + by rewrite pushed_dlq, trimmed_dlq.
  - destruct (Prisma.createMany _ _ _ _) as [t' n].
    unfold move_invalid. rewrite Hr. destruct invalid as [|i invalid]; simpl.
    + by rewrite trimmed_dlq, app_nil_r.
    + by rewrite pushed_dlq, trimmed_dlq.
Qed.

(** C2 (as amended).  In the list consumer, when the insert fails and the
    dead-letter push goes through, the dead-letter list gains one entry
    per entry of the batch (the invalid ones as they were, the valid ones
    re-serialised from the three fields kept of them), nothing is stored,
    [processBatch] returns normally and [startWorker] goes on to every
    later iteration.  The Kafka consumer has no dead-letter destination:
    when its insert fails it returns normally, having stored nothing and
    dead-lettered nothing. *)
Theorem failed_insert_disposition (default_id : nat -> string) (k : Tick) (w : World)
    (ticks : list Tick) (at_ : string) (live : nat) (t : Prisma.Table)
    (batch : list Message)
    (Hl : lrange_ok k = true) (Ht : ltrim_ok k = true)
    (Hi : insert_ok k = false) (Hr : rpush_ok k = true)
    (Hvalid : (classify (take 100 (Redis.llist (redis w) QUEUE_NAME))).1 <> [])
    (Hvalues : Forall (fun m => value m <> None) batch) :
  let messages := take 100 (Redis.llist (redis w) QUEUE_NAME) in
  let valid := (classify messages).1 in
  let invalid := (classify messages).2 in
  let w' := (processBatch default_id k w).1.1 in
  (processBatch default_id k w).2 = Returned
  /\ Redis.llist (redis w') DLQ_NAME
     = Redis.llist (redis w) DLQ_NAME ++ (stringify_valid <$> valid) ++ invalid
  /\ length ((stringify_valid <$> valid) ++ invalid) = length messages
  /\ table w' = table w
  /\ (startWorker default_id ticks w).2 = length ticks
  /\ (eachBatch default_id at_ live false t batch).2 = Returned
  /\ (eachBatch default_id at_ live false t batch).1.1 = t
  /\ dead_lettered (eachBatch default_id at_ live false t batch).1.2 = [].
Proof.
  intros messages valid invalid w'. subst w'.
  rewrite (processBatch_failed_insert default_id k w Hl Ht Hi Hvalid), Hr.
  fold messages. fold valid. fold invalid. simpl.
  split; [reflexivity|]. split; [by rewrite pushed_dlq, trimmed_dlq|].
  split; [rewrite length_app, length_fmap; apply classify_length|].
  split; [reflexivity|].
  split; [apply startWorker_runs_every_tick|].
  by apply eachBatch_failed_insert.
Qed.

Lemma failed_insert_disposition_witness :
  let messages := take 100 (Redis.llist (redis Sample.two_queued) QUEUE_NAME) in
  let valid := (classify messages).1 in
  let invalid := (classify messages).2 in
  let w' := (processBatch Sample.cuid Sample.outage Sample.two_queued).1.1 in
  (processBatch Sample.cuid Sample.outage Sample.two_queued).2 = Returned
  /\ Redis.llist (redis w') DLQ_NAME
     = Redis.llist (redis Sample.two_queued) DLQ_NAME
       ++ (stringify_valid <$> valid) ++ invalid
  /\ length ((stringify_valid <$> valid) ++ invalid) = length messages
  /\ table w' = table Sample.two_queued
  /\ (startWorker Sample.cuid [Sample.outage; Sample.outage] Sample.two_queued).2
     = length [Sample.outage; Sample.outage]
  /\ (eachBatch Sample.cuid "t" 2 false Prisma.empty Sample.kafka_batch).2 = Returned
  /\ (eachBatch Sample.cuid "t" 2 false Prisma.empty Sample.kafka_batch).1.1
     = Prisma.empty
  /\ dead_lettered (eachBatch Sample.cuid "t" 2 false Prisma.empty Sample.kafka_batch).1.2
     = [].
Proof.
  apply (failed_insert_disposition Sample.cuid Sample.outage Sample.two_queued
           [Sample.outage; Sample.outage] "t" 2 Prisma.empty Sample.kafka_batch).
  - reflexivity.
  - reflexivity.
  - reflexivity.
  - reflexivity.
  - vm_compute. discriminate.
  - repeat constructor; simpl; discriminate.
Defined.

(** C2 as stated fails on both consumers.  The Kafka consumer, its insert
    failing on a batch with a valid entry, dead-letters nothing.  The list
    consumer dead-letters a valid entry as the three fields kept of it, so
    the entry that was on the queue is not what lands there. *)
Lemma failed_insert_counterexample :
  let kafka := eachBatch Sample.cuid "t" 2 false Prisma.empty Sample.kafka_batch in
  let w' := (processBatch Sample.cuid Sample.outage Sample.two_queued).1.1 in
  inserted kafka.1.2 = [[Sample.kept_hi]]
  /\ dead_lettered kafka.1.2 = []
  /\ Redis.llist (redis w') DLQ_NAME = [stringify_valid Sample.kept_hi; Sample.garbage]
  /\ Sample.queued_hi ∉ Redis.llist (redis w') DLQ_NAME.
Proof.
  assert (Redis.llist (redis (processBatch Sample.cuid Sample.outage Sample.two_queued).1.1)
            DLQ_NAME = [stringify_valid Sample.kept_hi; Sample.garbage]) as Hdlq
    by (vm_compute; reflexivity).
  simpl. split; [vm_compute; reflexivity|]. split; [vm_compute; reflexivity|].
  split; [exact Hdlq|]. rewrite Hdlq.
  intros H. apply elem_of_cons in H as [H|H]; [discriminate H|].
  apply list_elem_of_singleton in H. discriminate H.
Qed.

Lemma each_message_trace (batch : list Message) (live : nat) :
  Forall (fun m => value m <> None) batch ->
  (length batch <= live)%nat ->
  each_message live batch
  = ((classify (omap value batch)).1, flat_map message_events batch, Returned).
Proof.
  revert live. induction batch as [|m rest IH]; intros live Hall Hlive; [done|].
  inversion Hall as [|? ? Hm Hrest]; subst.
  simpl in Hlive. destruct live as [|live]; [lia|].
  specialize (IH live Hrest ltac:(lia)).
  cbn [each_message flat_map]. unfold message_events at 1.
  change (omap value (m :: rest))
    with (match value m with Some v => v :: omap value rest | None => omap value rest end).
  destruct (value m) as [v|]; [|done].
  rewrite IH. cbn [classify].
  destruct (classify (omap value rest)) as [valid invalid].
  destruct (validate v); reflexivity.
Qed.

Lemma eachBatch_trace (default_id : nat -> string) (now : string) (live : nat)
    (ok : bool) (t : Prisma.Table) (batch : list Message) :
  Forall (fun m => value m <> None) batch ->
  (length batch <= live)%nat ->
  let valid := (classify (omap value batch)).1 in
  eachBatch default_id now live ok t batch
  = ((if ok then (Prisma.createMany default_id now t valid).1 else t),
     flat_map message_events batch
     ++ match valid with
        | [] => []
        | _ :: _ =>
            [Insert valid ok;
             Log (if ok then "Successfully persisted comments."
                  else "Database batch insert failed")]
        end,
     Returned).
Proof.
  intros Hall Hlive valid. unfold eachBatch.
  rewrite (each_message_trace batch live Hall Hlive). fold valid.
  destruct valid as [|c valid']; [rewrite app_nil_r; by destruct ok|].
  destruct ok; [|reflexivity].
  by destruct (Prisma.createMany _ _ _ _) as [t' n].
Qed.

Lemma message_events_resolved (batch : list Message) :
  Forall (fun m => value m <> None) batch ->
  resolved (flat_map message_events batch) = offset <$> batch.
Proof.
  intros Hall. rewrite <- (each_message_resolved batch (length batch) Hall (le_n _)).
  by rewrite (each_message_trace batch (length batch) Hall (le_n _)).
Qed.

Lemma message_events_no_insert (batch : list Message) :
  inserted (flat_map message_events batch) = [].
Proof.
  induction batch as [|m rest IH]; [done|].
  simpl. unfold message_events at 1.
  destruct (value m) as [v|]; [|exact IH].
  destruct (validate v); exact IH.
Qed.

Lemma message_events_no_dead_letter (batch : list Message) :
  dead_lettered (flat_map message_events batch) = [].
Proof.
  induction batch as [|m rest IH]; [done|].
  simpl. unfold message_events at 1.
  destruct (value m) as [v|]; [|exact IH].
  destruct (validate v); exact IH.
Qed.

(** C3 (as amended).  Both consumers acknowledge before they dispose.  The
    list consumer, once its fetch of a non-empty queue and its trim have
    succeeded, has removed the fetched entries from the queue as its first
    effect, whatever becomes of the insert and of the dead-letter push;
    when these succeed, the valid entries are inserted and the invalid
    ones appended to the dead-letter list.  The Kafka consumer, on a batch
    whose messages all have a value and which it goes through to the end
    (it stays running and not stale), does for each message in turn: a
    warning if the message is not valid, then the offset and the
    heartbeat; so it resolves the offset of every message in its
    validation loop, which inserts nothing.  After the loop comes one
    insert of the valid entries, if there are any, and a log line, and
    nothing else: an entry found invalid is only logged, and nothing is
    ever dead-lettered. *)
Theorem acknowledged_before_disposition (default_id : nat -> string) (k : Tick)
    (w : World) (at_ : string) (live : nat) (ok : bool) (t : Prisma.Table)
    (batch : list Message)
    (Hl : lrange_ok k = true) (Ht : ltrim_ok k = true)
    (Hq : Redis.llist (redis w) QUEUE_NAME <> [])
    (Hvalues : Forall (fun m => value m <> None) batch)
    (Hlive : (length batch <= live)%nat) :
  let messages := take 100 (Redis.llist (redis w) QUEUE_NAME) in
  let res := processBatch default_id k w in
  let valid := (classify (omap value batch)).1 in
  let kafka := eachBatch default_id at_ live ok t batch in
  (exists rest, res.1.2 = Trim (length messages) :: rest)
  /\ Redis.llist (redis res.1.1) QUEUE_NAME
     = drop (length messages) (Redis.llist (redis w) QUEUE_NAME)
  /\ (insert_ok k = true -> rpush_ok k = true ->
      table res.1.1
      = (Prisma.createMany default_id (now k) (table w) (classify messages).1).1
      /\ Redis.llist (redis res.1.1) DLQ_NAME
         = Redis.llist (redis w) DLQ_NAME ++ (classify messages).2)
  /\ kafka.1.2
     = flat_map message_events batch
       ++ match valid with
          | [] => []
          | _ :: _ =>
              [Insert valid ok;
               Log (if ok then "Successfully persisted comments."
                    else "Database batch insert failed")]
          end
  /\ (each_message live batch).1.2 = flat_map message_events batch
  /\ resolved (flat_map message_events batch) = offset <$> batch
  /\ inserted (flat_map message_events batch) = []
  /\ resolved kafka.1.2 = offset <$> batch
  /\ dead_lettered kafka.1.2 = []
  /\ kafka.1.1 = (if ok then (Prisma.createMany default_id at_ t valid).1 else t)
  /\ kafka.2 = Returned.
Proof.
  intros messages res valid kafka. subst res kafka.
  destruct (processBatch_trims_first default_id k w Hl Ht Hq) as [Hfirst Hqueue].
  split; [exact Hfirst|]. split; [exact Hqueue|]. split.
  { intros Hi Hr. by apply processBatch_all_ok. }
  rewrite (eachBatch_trace default_id at_ live ok t batch Hvalues Hlive). fold valid.
  rewrite (each_message_trace batch live Hvalues Hlive). simpl.
  split; [reflexivity|]. split; [reflexivity|].
  split; [by apply message_events_resolved|].
  split; [apply message_events_no_insert|].
  split.
  { rewrite resolved_app, message_events_resolved by exact Hvalues.
    destruct valid; simpl; by rewrite app_nil_r. }
  split; [|done].
  rewrite dead_lettered_app, message_events_no_dead_letter.
  by destruct valid.
Qed.

Lemma acknowledged_before_disposition_witness :
  let messages := take 100 (Redis.llist (redis Sample.two_queued) QUEUE_NAME) in
  let res := processBatch Sample.cuid Sample.outage Sample.two_queued in
  let valid := (classify (omap value Sample.kafka_batch)).1 in
  let kafka := eachBatch Sample.cuid "t" 2 true Prisma.empty Sample.kafka_batch in
  (exists rest, res.1.2 = Trim (length messages) :: rest)
  /\ Redis.llist (redis res.1.1) QUEUE_NAME
     = drop (length messages) (Redis.llist (redis Sample.two_queued) QUEUE_NAME)
  /\ (insert_ok Sample.outage = true -> rpush_ok Sample.outage = true ->
      table res.1.1
      = (Prisma.createMany Sample.cuid (now Sample.outage) (table Sample.two_queued)
           (classify messages).1).1
      /\ Redis.llist (redis res.1.1) DLQ_NAME
         = Redis.llist (redis Sample.two_queued) DLQ_NAME ++ (classify messages).2)
  /\ kafka.1.2
     = flat_map message_events Sample.kafka_batch
       ++ match valid with
          | [] => []
          | _ :: _ =>
              [Insert valid true; Log "Successfully persisted comments."]
          end
  /\ (each_message 2 Sample.kafka_batch).1.2 = flat_map message_events Sample.kafka_batch
  /\ resolved (flat_map message_events Sample.kafka_batch) = offset <$> Sample.kafka_batch
  /\ inserted (flat_map message_events Sample.kafka_batch) = []
  /\ resolved kafka.1.2 = offset <$> Sample.kafka_batch
  /\ dead_lettered kafka.1.2 = []
  /\ kafka.1.1 = (Prisma.createMany Sample.cuid "t" Prisma.empty valid).1
  /\ kafka.2 = Returned.
Proof.
  apply (acknowledged_before_disposition Sample.cuid Sample.outage Sample.two_queued
           "t" 2 true Prisma.empty Sample.kafka_batch).
  - reflexivity.
  - reflexivity.
  - vm_compute. discriminate.
  - repeat constructor; simpl; discriminate.
  - simpl. lia.
Defined.

(** C3 as stated fails: the Kafka consumer resolves the offset of an entry
    it cannot parse and then neither stores nor dead-letters it; and the
    list consumer has already trimmed a batch off the queue when both the
    insert and the dead-letter push fail, so that batch is in neither
    place. *)
Lemma acknowledged_then_dropped_counterexample :
  let kafka := eachBatch Sample.cuid "t" 1 true Prisma.empty
                 [{| offset := 7; value := Some Sample.garbage |}] in
  let lost := (processBatch Sample.cuid
                 {| now := "t"; lrange_ok := true; ltrim_ok := true;
                    insert_ok := false; rpush_ok := false |}
                 Sample.two_queued).1.1 in
  (resolved kafka.1.2 = [7%nat] /\ kafka.1.1 = Prisma.empty
   /\ dead_lettered kafka.1.2 = [])
  /\ (Redis.llist (redis lost) QUEUE_NAME = []
      /\ Redis.llist (redis lost) DLQ_NAME = []
      /\ Prisma.rows (table lost) = []).
Proof. vm_compute. repeat split; reflexivity. Qed.

(* ===================================================================== *)
(** * Part III: further properties of the same code                       *)
(* ===================================================================== *)

(** ** Reading recent comments *)

(** X1.  The limit a read uses, as a number that need not be whole: a
    requested limit that is zero or negative becomes 200, any other is
    capped at 1000 and otherwise kept as it is, also when it has a
    fractional part (0.5 stays 0.5, and 2.5 stays 2.5, which is no
    integer); a limit that is not a number or is minus infinity becomes
    200, plus infinity becomes 1000; so the limit used is always positive
    and at most 1000. *)
Theorem effective_limit (q : Q) :
  (limit_of (Fin q) == if Qle_bool q 0 then 200 else Qmin q 1000)%Q
  /\ limit_of NaN = 200%Q /\ limit_of NegInf = 200%Q /\ limit_of PosInf = 1000%Q
  /\ (forall n : jsnum Q, (0 < limit_of n)%Q /\ (limit_of n <= 1000)%Q)
  /\ limit_of (Fin (1 # 2)) = (1 # 2)%Q
  /\ as_integer (limit_of (Fin (5 # 2))) = None.
Proof.
  split; [|repeat split; try reflexivity; apply limit_of_range].
  unfold limit_of. destruct (Qle_bool q 0) eqn:Hq.
  - apply Qle_bool_iff in Hq.
    assert (Qmin (Qmax q 0) 1000 == 0)%Q as Hc.
    { rewrite Q.max_r by exact Hq. apply Q.min_l. discriminate. }
    apply Qeq_bool_iff in Hc. rewrite Hc. reflexivity.
  - assert (0 < q)%Q as Hpos.
    { apply Qnot_le_lt. intros Hle. apply Qle_bool_iff in Hle. congruence. }
    assert (Qmin (Qmax q 0) 1000 == Qmin q 1000)%Q as Hc.
    { rewrite Q.max_l by lra. reflexivity. }
    destruct (Qeq_bool (Qmin (Qmax q 0) 1000) 0) eqn:E; [|exact Hc].
    apply Qeq_bool_iff in E. exfalso. rewrite Hc in E.
    destruct (Q.min_spec q 1000) as [[_ Hm]|[_ Hm]]; rewrite Hm in E; lra.
Qed.

(** X2.  For a limit whose effective value is a whole number, the comment
    a cache write has just put in a room's list is the last item of the
    next read of that room and scope, whatever the list held before. *)
Theorem cached_comment_is_read_back (db : Redis.Db) (table : Prisma.Table)
    (videoId : string) (scope : option string) (o : list (string * json))
    (L : jsnum Q) (n : Z) (Hint : as_integer (limit_of L) = Some n) :
  let key := cache_key (toLowerCase (str_or scope "live")) videoId in
  exists items : list json,
    recent (Some (cache_write db key (JSON_stringify (JObj o)))) table videoId L scope
    = Some items
    /\ last items = Some (JObj o).
Proof.
  intros key. pose proof (integral_limit_range L n Hint) as HL.
  eexists. split.
  - apply (recent_cached _ _ _ _ _ n Hint).
    fold key. rewrite llist_cache_write. unfold CACHE_CAP. simpl. discriminate.
  - fold key. rewrite llist_cache_write.
    destruct (Z.to_nat n) as [|k] eqn:Ek; [lia|].
    unfold CACHE_CAP. rewrite take_take. simpl.
    unfold parse_entries. simpl. rewrite reverse_cons. apply last_snoc.
Qed.

Lemma cached_comment_is_read_back_witness :
  let key := cache_key (toLowerCase (str_or None "live")) "v1" in
  exists items : list json,
    recent (Some (cache_write Sample.three_cached key
                    (JSON_stringify (JObj (Sample.entry "z" "last")))))
      Prisma.empty "v1" (Fin 2%Q) None
    = Some items
    /\ last items = Some (JObj (Sample.entry "z" "last")).
Proof.
  apply (cached_comment_is_read_back Sample.three_cached Prisma.empty "v1" None
           (Sample.entry "z" "last") (Fin 2%Q) 2).
  vm_compute. reflexivity.
Defined.

Lemma lower_idempotent (c : ascii) : lower (lower c) = lower c.
Proof. destruct c as [[] [] [] [] [] [] [] []]; vm_compute; reflexivity. Qed.

Lemma toLowerCase_idempotent (s : string) : toLowerCase (toLowerCase s) = toLowerCase s.
Proof. induction s as [|c s IH]; [done|]. simpl. by rewrite lower_idempotent, IH. Qed.

Lemma toLowerCase_empty (s : string) : toLowerCase s = "" <-> s = "".
Proof. destruct s; simpl; split; intros H; try done. Qed.

Lemma scope_normalised (s : string) :
  toLowerCase (str_or (Some (toLowerCase s)) "live") = toLowerCase (str_or (Some s) "live").
Proof.
  unfold str_or. destruct (String.eqb_spec s "") as [->|Hs]; [reflexivity|].
  destruct (String.eqb_spec (toLowerCase s) "") as [He|_].
  - exfalso. apply Hs. apply toLowerCase_empty. exact He.
  - apply toLowerCase_idempotent.
Qed.

(** X3.  The scope of a read is case-insensitive (on ASCII letters), and
    a read that gives no scope, or an empty one, reads scope [live]. *)
Theorem read_scope_is_normalised (cache : option Redis.Db) (table : Prisma.Table)
    (videoId : string) (L : jsnum Q) (s : string) :
  recent cache table videoId L (Some (toLowerCase s))
  = recent cache table videoId L (Some s)
  /\ recent cache table videoId L None = recent cache table videoId L (Some "live")
  /\ recent cache table videoId L (Some "") = recent cache table videoId L (Some "live").
Proof.
  split; [|split; reflexivity].
  unfold recent. by rewrite scope_normalised.
Qed.

(** *** The fall-back to the primary store *)

Lemma insert_desc_elem (x r : Prisma.Comment) (l : list Prisma.Comment) :
  x ∈ Prisma.insert_desc r l <-> x = r \/ x ∈ l.
Proof.
  induction l as [|y l IH]; simpl.
  - rewrite list_elem_of_singleton. set_solver.
  - destruct (String.leb _ _); [set_solver|].
    rewrite !elem_of_cons, IH. tauto.
Qed.

Lemma sorted_desc_elem (x : Prisma.Comment) (l : list Prisma.Comment) :
  x ∈ foldr Prisma.insert_desc [] l <-> x ∈ l.
Proof.
  induction l as [|y l IH]; simpl; [done|].
  rewrite insert_desc_elem, IH, elem_of_cons. tauto.
Qed.

Lemma length_insert_desc (r : Prisma.Comment) (l : list Prisma.Comment) :
  length (Prisma.insert_desc r l) = S (length l).
Proof.
  induction l as [|y l IH]; simpl; [done|].
  destruct (String.leb _ _); simpl; [done | by rewrite IH].
Qed.

Lemma length_sorted_desc (l : list Prisma.Comment) :
  length (foldr Prisma.insert_desc [] l) = length l.
Proof. induction l as [|y l IH]; simpl; [done|]. by rewrite length_insert_desc, IH. Qed.

Lemma insert_desc_sorted (r : Prisma.Comment) (l : list Prisma.Comment) :
  Sorted Chrono.newer_first l -> Sorted Chrono.newer_first (Prisma.insert_desc r l).
Proof.
  induction l as [|x l IH]; intros Hs; simpl.
  - by repeat constructor.
  - apply Sorted_inv in Hs as [Hs Hhd].
    destruct (String.leb (Prisma.createdAt x) (Prisma.createdAt r)) eqn:E.
    + by repeat constructor.
    + constructor; [by apply IH|].
      assert (Chrono.newer_first x r) as Hxr.
      { unfold Chrono.newer_first.
        destruct (String.leb_total (Prisma.createdAt x) (Prisma.createdAt r)); congruence. }
      destruct l as [|y l]; simpl; [by constructor|].
      destruct (String.leb (Prisma.createdAt y) (Prisma.createdAt r)); constructor;
        [exact Hxr | by inversion Hhd].
Qed.

Lemma sorted_desc_sorted (l : list Prisma.Comment) :
  Sorted Chrono.newer_first (foldr Prisma.insert_desc [] l).
Proof. induction l as [|y l IH]; simpl; [constructor | by apply insert_desc_sorted]. Qed.

Lemma Sorted_take {A} (R : A -> A -> Prop) (n : nat) (l : list A) :
  Sorted R l -> Sorted R (take n l).
Proof.
  revert n. induction l as [|x l IH]; intros n Hs; destruct n; simpl; try constructor.
  - apply IH. by apply Sorted_inv in Hs as [? _].
  - apply Sorted_inv in Hs as [_ Hhd].
    destruct l as [|y l]; destruct n; simpl; constructor. by inversion Hhd.
Qed.

Lemma Sorted_snoc {A} (R : A -> A -> Prop) (l : list A) (x : A) :
  Sorted R l -> (forall y, last l = Some y -> R y x) -> Sorted R (l ++ [x]).
Proof.
  induction l as [|a l IH]; intros Hs Hlast; simpl.
  - by repeat constructor.
  - apply Sorted_inv in Hs as [Hs Hhd]. constructor.
    + apply IH; [exact Hs|]. intros y Hy. apply Hlast.
      destruct l; [done|]. exact Hy.
    + destruct l as [|b l]; simpl.
      * constructor. by apply Hlast.
      * constructor. by inversion Hhd.
Qed.

Lemma Sorted_reverse {A} (R : A -> A -> Prop) (l : list A) :
  Sorted R l -> Sorted (fun a b => R b a) (reverse l).
Proof.
  induction l as [|x l IH]; intros Hs; [constructor|].
  apply Sorted_inv in Hs as [Hs Hhd].
  rewrite reverse_cons. apply Sorted_snoc; [by apply IH|].
  intros y Hy. rewrite last_reverse in Hy.
  destruct l as [|b l]; [done|]. injection Hy as <-. by inversion Hhd.
Qed.

(** X4.  For a limit whose effective value is a whole number n: when the
    cache is not available, or holds nothing for the room and scope, a read
    is served from the primary store: the items are rows of that room
    only, as many as the room has up to n, and they are ordered by
    [createdAt], oldest first. *)
Theorem read_falls_back_to_store (cache : option Redis.Db) (table : Prisma.Table)
    (videoId : string) (L : jsnum Q) (scope : option string) (n : Z)
    (Hint : as_integer (limit_of L) = Some n)
    (Hmiss : forall db, cache = Some db ->
               Redis.llist db (cache_key (toLowerCase (str_or scope "live")) videoId) = []) :
  exists rows : list Prisma.Comment,
    recent cache table videoId L scope = Some (Prisma.to_json <$> rows)
    /\ length rows
       = Nat.min (Z.to_nat n)
           (length (List.filter (fun r => String.eqb (Prisma.videoId r) videoId)
                      (Prisma.rows table)))
    /\ Forall (fun r => r ∈ Prisma.rows table /\ Prisma.videoId r = videoId) rows
    /\ Sorted Chrono.older_first rows.
Proof.
  exists (reverse (Prisma.findMany_desc table videoId (Z.to_nat n))).
  split; [|split; [|split]].
  - rewrite (recent_from_store cache table videoId L scope n Hint Hmiss).
    by rewrite fmap_reverse.
  - rewrite length_reverse. unfold Prisma.findMany_desc.
    by rewrite length_take, length_sorted_desc.
  - apply Forall_forall. intros r Hr. rewrite elem_of_reverse in Hr.
    unfold Prisma.findMany_desc in Hr. apply elem_of_take in Hr as (i & Hr & _).
    apply list_elem_of_lookup_2 in Hr. rewrite sorted_desc_elem in Hr.
    apply (proj1 (list_elem_of_In _ _)) in Hr.
    apply (proj1 (filter_In _ _ _)) in Hr as [Hin Hv].
    split; [by apply list_elem_of_In | by apply String.eqb_eq].
  - apply (Sorted_reverse Chrono.newer_first). unfold Prisma.findMany_desc.
    apply Sorted_take, sorted_desc_sorted.
Qed.

Lemma read_falls_back_to_store_witness :
  exists rows : list Prisma.Comment,
    recent None Sample.stored "v1" (Fin 10%Q) None = Some (Prisma.to_json <$> rows)
    /\ length rows
       = Nat.min (Z.to_nat 10)
           (length (List.filter (fun r => String.eqb (Prisma.videoId r) "v1")
                      (Prisma.rows Sample.stored)))
    /\ Forall (fun r => r ∈ Prisma.rows Sample.stored /\ Prisma.videoId r = "v1") rows
    /\ Sorted Chrono.older_first rows.
Proof.
  apply (read_falls_back_to_store None Sample.stored "v1" (Fin 10%Q) None 10).
  - vm_compute. reflexivity.
  - intros db H. discriminate H.
Defined.

(** ** Submitting over HTTP *)

Lemma z_string_inv (lo : nat) (hi : option nat) (v : option json) (s : string) :
  z_string lo hi v = Some s ->
  v = Some (JStr s) /\ (lo <= String.length s)%nat
  /\ forall h, hi = Some h -> (String.length s <= h)%nat.
Proof.
  unfold z_string. destruct v as [[| | |x| |]|]; try discriminate.
  destruct (Nat.leb_spec lo (String.length x)) as [Hlo|]; [|discriminate]. simpl.
  destruct hi as [h|].
  - destruct (Nat.leb_spec (String.length x) h) as [Hh|]; [|discriminate].
    intros [= <-]. split; [done|]. split; [done|]. by intros ? [= <-].
  - intros [= <-]. split; [done|]. split; [done|]. discriminate.
Qed.

Lemma parsed_inv (r : PostReq) (p : CreateBody) :
  parsed r = Some p ->
  get (JSON_parse (body r)) "videoId" = Some (JStr (videoId p))
  /\ get (JSON_parse (body r)) "userId" = Some (JStr (userId p))
  /\ get (JSON_parse (body r)) "content" = Some (JStr (content p))
  /\ (1 <= String.length (videoId p))%nat /\ (1 <= String.length (userId p))%nat
  /\ (1 <= String.length (content p) <= 2000)%nat.
Proof.
  unfold parsed, createSchema_safeParse.
  destruct (JSON_parse (body r)) as [j|]; simpl; [|discriminate].
  destruct j; try discriminate.
  intros H. simplify_option_eq.
  repeat match goal with
         | H : z_string _ _ _ = Some _ |- _ => apply z_string_inv in H as (? & ? & ?)
         end.
  simpl. repeat split; try done. eauto.
Qed.

(** X5.  A body that [POST /comments] accepts is a JSON object whose
    [videoId], [userId] and [content] are strings, taken over unchanged,
    none of them empty and [content] at most 2000 characters long. *)
Theorem accepted_body_is_well_formed (r : PostReq) (p : CreateBody)
    (Hp : parsed r = Some p) :
  get (JSON_parse (body r)) "videoId" = Some (JStr (videoId p))
  /\ get (JSON_parse (body r)) "userId" = Some (JStr (userId p))
  /\ get (JSON_parse (body r)) "content" = Some (JStr (content p))
  /\ (1 <= String.length (videoId p))%nat /\ (1 <= String.length (userId p))%nat
  /\ (1 <= String.length (content p) <= 2000)%nat.
Proof. by apply parsed_inv. Qed.

Lemma accepted_body_is_well_formed_witness :
  let p := {| videoId := "v1"; userId := "u1"; content := "hi";
              replyToId := None; replyToUserId := None; persist := None |} in
  get (JSON_parse (body Sample.post_hi)) "videoId" = Some (JStr (videoId p))
  /\ get (JSON_parse (body Sample.post_hi)) "userId" = Some (JStr (userId p))
  /\ get (JSON_parse (body Sample.post_hi)) "content" = Some (JStr (content p))
  /\ (1 <= String.length (videoId p))%nat /\ (1 <= String.length (userId p))%nat
  /\ (1 <= String.length (content p) <= 2000)%nat.
Proof.
  apply (accepted_body_is_well_formed Sample.post_hi
           {| videoId := "v1"; userId := "u1"; content := "hi";
              replyToId := None; replyToUserId := None; persist := None |}).
  reflexivity.
Defined.

(** X6.  A submission whose [content] is missing, is not a string, is
    empty or is longer than 2000 characters is answered with status 400 and
    has no other effect: nothing is enqueued, broadcast or cached. *)
Theorem body_without_valid_content_rejected (e : Env) (c : Call) (r : PostReq)
    (Hbad : forall s, get (JSON_parse (body r)) "content" = Some (JStr s) ->
              s = "" \/ (2000 < String.length s)%nat) :
  post_comments e c r = [Respond 400 (JObj [("error", JStr "invalid body")])].
Proof.
  unfold post_comments. destruct (parsed r) as [p|] eqn:Hp; [|reflexivity].
  exfalso. destruct (parsed_inv r p Hp) as (_ & _ & Hc & _ & _ & Hlen).
  destruct (Hbad _ Hc) as [Hs|Hs]; [rewrite Hs in Hlen; simpl in Hlen|]; lia.
Qed.

Lemma body_without_valid_content_rejected_witness :
  post_comments Sample.persist_all Sample.call Sample.post_empty
  = [Respond 400 (JObj [("error", JStr "invalid body")])].
Proof.
  apply (body_without_valid_content_rejected Sample.persist_all Sample.call
           Sample.post_empty).
  intros s H. injection H as <-. by left.
Defined.

(** X7.  Every accepted submission, eligible for persistence or not and
    whether or not the enqueue succeeds, is broadcast on the channel of its
    room and answered with status 200; the record in the response is the
    record that is broadcast, and its id is the UUID of the request.  A
    reply is also broadcast on the channel [room:user:<replyToUserId>]. *)
Theorem response_is_the_broadcast_record (e : Env) (c : Call) (r : PostReq)
    (p : CreateBody) (Hp : parsed r = Some p) :
  let temp := temp_of c (videoId p) (userId p) (content p)
                (JStr <$> replyToId p) (JStr <$> replyToUserId p) in
  last (post_comments e c r) = Some (Respond 200 temp)
  /\ DeferEmit ("room:" +:+ videoId p) (JSON_stringify (broadcast "comment" temp))
     ∈ post_comments e c r
  /\ get (Some temp) "id" = Some (JStr (uuid c))
  /\ forall u, replyToUserId p = Some u -> u <> "" ->
       DeferEmit ("room:" +:+ "user:" +:+ u) (JSON_stringify (broadcast "reply" temp))
       ∈ post_comments e c r.
Proof.
  intros temp. rewrite (post_comments_accepted e c r p Hp). fold temp.
  split; [rewrite !app_assoc; apply last_snoc|].
  split; [rewrite !elem_of_app; right; left; apply publish_emits|].
  split; [reflexivity|].
  intros u Hu Hne. rewrite Hu. simpl.
  apply String.eqb_neq in Hne. rewrite Hne. simpl.
  rewrite !elem_of_app. right. right. left. apply publish_emits.
Qed.

Lemma response_is_the_broadcast_record_witness :
  let p := {| videoId := "v1"; userId := "u1"; content := "hi";
              replyToId := None; replyToUserId := None; persist := None |} in
  let temp := temp_of Sample.call (videoId p) (userId p) (content p)
                (JStr <$> replyToId p) (JStr <$> replyToUserId p) in
  last (post_comments Sample.persist_none Sample.call Sample.post_hi)
  = Some (Respond 200 temp)
  /\ DeferEmit ("room:" +:+ videoId p) (JSON_stringify (broadcast "comment" temp))
     ∈ post_comments Sample.persist_none Sample.call Sample.post_hi
  /\ get (Some temp) "id" = Some (JStr (uuid Sample.call))
  /\ forall u, replyToUserId p = Some u -> u <> "" ->
       DeferEmit ("room:" +:+ "user:" +:+ u) (JSON_stringify (broadcast "reply" temp))
       ∈ post_comments Sample.persist_none Sample.call Sample.post_hi.
Proof.
  apply (response_is_the_broadcast_record Sample.persist_none Sample.call Sample.post_hi
           {| videoId := "v1"; userId := "u1"; content := "hi";
              replyToId := None; replyToUserId := None; persist := None |}).
  reflexivity.
Defined.

(** ** Submitting over a socket *)

Lemma length_substring_0 (n : nat) (s : string) :
  (String.length (String.substring 0 n s) <= n)%nat.
Proof.
  revert s. induction n as [|n IH]; intros s; destruct s as [|c s]; simpl; try lia.
  specialize (IH s). lia.
Qed.

Lemma substring_0_short (n : nat) (s : string) :
  (String.length s <= n)%nat -> String.substring 0 n s = s.
Proof.
  revert s. induction n as [|n IH]; intros s Hs; destruct s as [|c s]; simpl in *;
    try reflexivity; try lia.
  f_equal. apply IH. lia.
Qed.

Lemma on_message_accepted (default_id : nat -> string) (e : Env) (c : Call)
    (table : Prisma.Table) (j : json) (scope : string) :
  truthy (Some j) && strict_eq_string (get (Some j) "type") "comment"
  && truthy (get (Some j) "videoId") && truthy (get (Some j) "userId")
  && truthy (get (Some j) "content") = true ->
  scope_of (Some j) = Some scope ->
  let data := Some j in
  let content := slice0 2000 (String_of (get data "content")) in
  let temp := temp_of c (String_of (get data "videoId")) (String_of (get data "userId"))
                content (get data "replyToId") (get data "replyToUserId") in
  let d := {| Prisma.data_id := None;
              Prisma.data_videoId := String_of (get data "videoId");
              Prisma.data_userId := String_of (get data "userId");
              Prisma.data_content := content |} in
  let saved := save default_id e c table d temp in
  on_message default_id e c table (Encoded j)
  = (saved.1.2,
     saved.2
     ++ publish e (String_of (get data "videoId")) (broadcast "comment" saved.1.1)
     ++ (if truthy (get data "replyToUserId")
         then publish e ("user:" +:+ String_of (get data "replyToUserId"))
                (broadcast "reply" saved.1.1)
         else [])
     ++ (if redis_on e
         then [DeferCacheWrite
                 (cache_key scope (String_of (get (Some saved.1.1) "videoId")))
                 (JSON_stringify saved.1.1)]
         else [])).
Proof.
  intros Hok Hscope. simpl. unfold on_message. simpl JSON_parse. cbv iota beta.
  rewrite Hok, Hscope. destruct (save _ _ _ _ _ _) as [[created table'] effs].
  reflexivity.
Qed.

(** X8.  A socket frame has effects exactly when it parses to a value
    whose [type] is the string [comment], whose [videoId], [userId] and
    [content] are truthy, and whose [scope], if truthy, is a string; every
    other frame is dropped without a trace. *)
Theorem frame_is_processed_iff (default_id : nat -> string) (e : Env) (c : Call)
    (table : Prisma.Table) (raw : text) :
  (on_message default_id e c table raw).2 <> []
  <-> exists j,
        JSON_parse raw = Some j
        /\ get (Some j) "type" = Some (JStr "comment")
        /\ truthy (get (Some j) "videoId") = true
        /\ truthy (get (Some j) "userId") = true
        /\ truthy (get (Some j) "content") = true
        /\ scope_of (Some j) <> None.
Proof.
  split.
  - unfold on_message. destruct (JSON_parse raw) as [j|] eqn:Ej; [|done].
    destruct (_ && _) eqn:Hok; [|done].
    destruct (scope_of (Some j)) as [scope|] eqn:Hs; [|done].
    intros _. exists j. rewrite !andb_true_iff in Hok.
    destruct Hok as ((((_ & Ht) & Hv) & Hu) & Hc).
    split; [reflexivity|]. split.
    { unfold strict_eq_string in Ht.
      destruct (get (Some j) "type") as [[| | |s| |]|]; try discriminate.
      apply String.eqb_eq in Ht. by subst. }
    rewrite Hs. repeat split; done.
  - intros (j & Ej & Ht & Hv & Hu & Hc & Hs).
    destruct raw as [|j']; [discriminate|]. injection Ej as ->.
    destruct (scope_of (Some j)) as [scope|] eqn:Escope; [|done].
    rewrite (on_message_accepted default_id e c table j scope); [|
      rewrite Ht, Hv, Hu, Hc; simpl; by destruct j | exact Escope].
    simpl. intros H. apply app_eq_nil in H as [_ H].
    apply app_eq_nil in H as [H _]. unfold publish in H.
    apply app_eq_nil in H as [_ H]. discriminate H.
Qed.

(** X9.  What the socket path writes to the store for a frame is the frame's
    [content] cut to its first 2000 characters (unchanged when it is no
    longer than that), and never carries an id. *)
Theorem socket_content_is_truncated (default_id : nat -> string) (e : Env) (c : Call)
    (table : Prisma.Table) (j : json) (d : Prisma.CommentCreateInput)
    (Hd : DbCreate d ∈ (on_message default_id e c table (Encoded j)).2) :
  Prisma.data_content d = slice0 2000 (String_of (get (Some j) "content"))
  /\ (String.length (Prisma.data_content d) <= 2000)%nat
  /\ ((String.length (String_of (get (Some j) "content")) <= 2000)%nat ->
      Prisma.data_content d = String_of (get (Some j) "content"))
  /\ Prisma.data_id d = None.
Proof.
  assert (Prisma.data_content d = slice0 2000 (String_of (get (Some j) "content"))
          /\ Prisma.data_id d = None) as [Hc Hid].
  { unfold on_message in Hd. simpl JSON_parse in Hd. cbv iota beta in Hd.
    destruct (_ && _); [|by apply not_elem_of_nil in Hd].
    destruct (scope_of (Some j)) as [scope|]; [|by apply not_elem_of_nil in Hd].
    destruct (save default_id e c table _ _) as [[created table'] effs] eqn:Es.
    simpl in Hd. rewrite !elem_of_app in Hd. destruct Hd as [H|[H|[H|H]]].
    - assert (effs = (save default_id e c table
                        {| Prisma.data_id := None;
                           Prisma.data_videoId := String_of (get (Some j) "videoId");
                           Prisma.data_userId := String_of (get (Some j) "userId");
                           Prisma.data_content :=
                             slice0 2000 (String_of (get (Some j) "content")) |}
                        (temp_of c (String_of (get (Some j) "videoId"))
                           (String_of (get (Some j) "userId"))
                           (slice0 2000 (String_of (get (Some j) "content")))
                           (get (Some j) "replyToId") (get (Some j) "replyToUserId"))).2)
        as Heq by (by rewrite Es).
      rewrite Heq in H. apply save_effects in H as [H|H]; [|discriminate H].
      injection H as ->. done.
    - apply publish_only_broadcasts in H. discriminate H.
    - destruct (truthy _); [|by apply not_elem_of_nil in H].
      apply publish_only_broadcasts in H. discriminate H.
    - destruct (redis_on e); [|by apply not_elem_of_nil in H].
      apply list_elem_of_singleton in H. discriminate H. }
  split; [exact Hc|]. rewrite Hc. unfold slice0.
  split; [apply length_substring_0|]. split; [apply substring_0_short | exact Hid].
Qed.

Lemma socket_content_is_truncated_witness :
  let j := JObj [("type", JStr "comment"); ("videoId", JStr "v1");
                 ("userId", JStr "u1"); ("content", JStr "hi")] in
  Prisma.data_content Sample.kept_hi = slice0 2000 (String_of (get (Some j) "content"))
  /\ (String.length (Prisma.data_content Sample.kept_hi) <= 2000)%nat
  /\ ((String.length (String_of (get (Some j) "content")) <= 2000)%nat ->
      Prisma.data_content Sample.kept_hi = String_of (get (Some j) "content"))
  /\ Prisma.data_id Sample.kept_hi = None.
Proof.
  apply (socket_content_is_truncated Sample.cuid Sample.persist_all Sample.call
           Prisma.empty
           (JObj [("type", JStr "comment"); ("videoId", JStr "v1");
                  ("userId", JStr "u1"); ("content", JStr "hi")])
           Sample.kept_hi).
  vm_compute. apply list_elem_of_here.
Defined.





(** ** The registry and the local bus *)

Lemma listeners_joined (e : Env) (st : State) (ws : nat) (r channel : string) :
  r <> "" ->
  listeners (on_connection e st ws (Url (Some r))).1 channel
  = if decide ("room:" +:+ r = channel) then listeners st channel ++ [ws]
    else listeners st channel.
Proof.
  intros Hr. unfold on_connection. simpl.
  rewrite !(proj2 (String.eqb_neq r "") Hr). simpl.
  unfold listeners at 1. simpl. case_decide as Hc.
  - subst channel. by rewrite lookup_insert_eq.
  - by rewrite lookup_insert_ne.
Qed.

Lemma subscribers_joined (e : Env) (st : State) (ws : nat) (r : string) :
  r <> "" ->
  roomSubscribers (on_connection e st ws (Url (Some r))).1 !! r
  = Some ({[ws]} ∪ default ∅ (roomSubscribers st !! r)).
Proof.
  intros Hr. unfold on_connection. simpl.
  rewrite !(proj2 (String.eqb_neq r "") Hr). simpl.
  rewrite lookup_insert_eq. f_equal. f_equal. unfold has.
  destruct (roomSubscribers st !! r) as [s|] eqn:E; [by rewrite E|].
  by rewrite lookup_insert_eq.
Qed.

(** X11.  Once a socket has joined a room, a message emitted on that
    room's channel is sent to it, after the sockets that were listening
    before, which all still get it; the socket is a member of the room; and
    the listeners of every other channel are unchanged. *)
Theorem joined_socket_receives (e : Env) (st : State) (ws : nat) (r : string)
    (msg : text) (Hr : r <> "") :
  let st' := (on_connection e st ws (Url (Some r))).1 in
  emit st' ("room:" +:+ r) msg = emit st ("room:" +:+ r) msg ++ [WsSend ws msg]
  /\ (exists s, roomSubscribers st' !! r = Some s /\ ws ∈ s)
  /\ forall channel, channel <> "room:" +:+ r -> emit st' channel msg = emit st channel msg.
Proof.
  intros st'. subst st'. split; [|split].
  - unfold emit. rewrite (listeners_joined e st ws r _ Hr).
    rewrite decide_True by done. by rewrite fmap_app.
  - eexists. split; [by apply subscribers_joined|]. set_solver.
  - intros channel Hc. unfold emit. rewrite (listeners_joined e st ws r _ Hr).
    by rewrite decide_False.
Qed.

Lemma joined_socket_receives_witness :
  let st' := (on_connection Sample.with_redis init 1 (Url (Some "r1"))).1 in
  emit st' ("room:" +:+ "r1") Sample.garbage
  = emit init ("room:" +:+ "r1") Sample.garbage ++ [WsSend 1 Sample.garbage]
  /\ (exists s, roomSubscribers st' !! "r1" = Some s /\ 1%nat ∈ s)
  /\ forall channel, channel <> "room:" +:+ "r1" ->
       emit st' channel Sample.garbage = emit init channel Sample.garbage.
Proof.
  apply (joined_socket_receives Sample.with_redis init 1 "r1" Sample.garbage).
  discriminate.
Defined.

Lemma on_connection_joined (e : Env) (st : State) (ws : nat) (r : string) :
  r <> "" ->
  (on_connection e st ws (Url (Some r))).1
  = {| roomSubscribers :=
         <[r := {[ws]} ∪ default ∅ (roomSubscribers st !! r)]> (roomSubscribers st);
       localBus := <["room:" +:+ r := listeners st ("room:" +:+ r) ++ [ws]]> (localBus st);
       handlers := <[ws := r]> (handlers st) |}.
Proof.
  intros Hr. unfold on_connection. simpl.
  rewrite !(proj2 (String.eqb_neq r "") Hr). simpl. f_equal.
  unfold has. destruct (roomSubscribers st !! r) as [s|] eqn:E.
  - by rewrite E.
  - rewrite lookup_insert_eq. simpl. by rewrite insert_insert_eq.
Qed.

Lemma remove_first_head (n : nat) (l : list nat) : remove_first n (n :: l) = l.
Proof. simpl. by rewrite Nat.eqb_refl. Qed.

Lemma off_snoc (l : list nat) (n : nat) : off (l ++ [n]) n = l.
Proof.
  unfold off. rewrite reverse_snoc, remove_first_head. apply reverse_involutive.
Qed.

(** X12.  A socket that the registry did not know joins a room and then
    closes: afterwards the registry does not know it again, every channel
    has the listeners it had before, and, if no room was recorded with an
    empty member set, the rooms and their members are exactly as before. *)
Theorem join_then_leave_restores (e : Env) (st : State) (ws : nat) (r : string)
    (Hr : r <> "") (Hnew : absent st ws) :
  let st1 := (on_connection e st ws (Url (Some r))).1 in
  let st2 := (on_close e st1 ws).1 in
  absent st2 ws
  /\ (forall channel, listeners st2 channel = listeners st channel)
  /\ ((forall s, roomSubscribers st !! r = Some s -> s <> ∅) ->
      roomSubscribers st2 = roomSubscribers st).
Proof.
  intros st1 st2. destruct Hnew as (Hbus & Hsubs & Hhs).
  assert (forall channel, listeners st2 channel = listeners st channel) as Hsame.
  { intros channel. subst st2 st1. rewrite (on_connection_joined e st ws r Hr).
    unfold on_close. simpl. rewrite !lookup_insert_eq.
    assert (forall subs hs,
              listeners {| roomSubscribers := subs;
                           localBus :=
                             <["room:" +:+ r :=
                                 off (listeners
                                        {| roomSubscribers :=
                                             <[r := {[ws]} ∪ default ∅ (roomSubscribers st !! r)]>
                                               (roomSubscribers st);
                                           localBus :=
                                             <["room:" +:+ r :=
                                                 listeners st ("room:" +:+ r) ++ [ws]]>
                                               (localBus st);
                                           handlers := <[ws := r]> (handlers st) |}
                                        ("room:" +:+ r)) ws]>
                               (<["room:" +:+ r := listeners st ("room:" +:+ r) ++ [ws]]>
                                  (localBus st));
                           handlers := hs |} channel
              = listeners st channel) as Hl.
    { intros subs hs. unfold listeners at 1 2. simpl. rewrite lookup_insert_eq. simpl.
      rewrite off_snoc. destruct (decide ("room:" +:+ r = channel)) as [<-|Hc].
      - by rewrite lookup_insert_eq.
      - by rewrite !lookup_insert_ne. }
    case_bool_decide; simpl; apply Hl. }
  assert (({[ws]} ∪ default ∅ (roomSubscribers st !! r)) ∖ {[ws]}
          = default (∅ : gset nat) (roomSubscribers st !! r)) as Hset.
  { destruct (roomSubscribers st !! r) as [s|] eqn:E; simpl; [|set_solver].
    pose proof (Hsubs r s E). set_solver. }
  split; [|split; [exact Hsame|]].
  - split; [|split].
    + intros channel. rewrite Hsame. apply Hbus.
    + intros r' s. subst st2 st1. rewrite (on_connection_joined e st ws r Hr).
      unfold on_close. simpl. rewrite !lookup_insert_eq. rewrite Hset.
      case_bool_decide as Hsz; simpl.
      * destruct (decide (r = r')) as [<-|Hr'].
        -- by rewrite lookup_delete_eq.
        -- rewrite lookup_delete_ne, lookup_insert_ne by done. apply Hsubs.
      * destruct (decide (r = r')) as [<-|Hr'].
        -- rewrite lookup_insert_eq. intros [= <-].
           destruct (roomSubscribers st !! r) as [s|] eqn:E; simpl; [|set_solver].
           exact (Hsubs r s E).
        -- rewrite !lookup_insert_ne by done. apply Hsubs.
    + subst st2 st1. rewrite (on_connection_joined e st ws r Hr).
      unfold on_close. simpl. rewrite !lookup_insert_eq.
      case_bool_decide; simpl; apply lookup_delete_eq.
  - intros Hfull. subst st2 st1. rewrite (on_connection_joined e st ws r Hr).
    unfold on_close. simpl. rewrite !lookup_insert_eq. rewrite Hset.
    case_bool_decide as Hsz; simpl.
    + rewrite delete_insert_eq. apply delete_id.
      destruct (roomSubscribers st !! r) as [s|] eqn:E; [|done].
      exfalso. simpl in Hsz. apply (Hfull s eq_refl).
      by apply size_empty_inv, leibniz_equiv in Hsz.
    + rewrite insert_insert_eq.
      destruct (roomSubscribers st !! r) as [s|] eqn:E; simpl.
      * by apply insert_id.
      * exfalso. apply Hsz. apply size_empty.
Qed.

Lemma join_then_leave_restores_witness :
  let st1 := (on_connection Sample.with_redis init 1 (Url (Some "r1"))).1 in
  let st2 := (on_close Sample.with_redis st1 1).1 in
  absent st2 1
  /\ (forall channel, listeners st2 channel = listeners init channel)
  /\ ((forall s, roomSubscribers init !! "r1" = Some s -> s <> ∅) ->
      roomSubscribers st2 = roomSubscribers init).
Proof.
  apply (join_then_leave_restores Sample.with_redis init 1 "r1").
  - discriminate.
  - split; [|split].
    + intros channel H. unfold listeners, init in H. simpl in H.
      rewrite lookup_empty in H. simpl in H. by apply not_elem_of_nil in H.
    + intros r s H. unfold init in H. simpl in H. by rewrite lookup_empty in H.
    + reflexivity.
Defined.

Lemma size_without_zero (s : gset nat) (ws : nat) :
  size (s ∖ {[ws]}) = 0%nat <-> s ⊆ {[ws]}.
Proof.
  split.
  - intros H x Hx. apply size_empty_inv in H.
    destruct (decide (x = ws)) as [->|Hne]; [by apply elem_of_singleton|].
    exfalso. apply (not_elem_of_empty (C:=gset nat) x). apply (H x).
    apply elem_of_difference. split; [exact Hx|]. by rewrite elem_of_singleton.
  - intros H. apply size_empty_iff. apply elem_of_equiv_empty. intros x Hx.
    apply elem_of_difference in Hx as [Hx Hn]. apply Hn. by apply H.
Qed.

(** X13.  When a socket closes, the distributed channel of its room is
    unsubscribed (on an instance with Redis) and the room is forgotten
    exactly when no other socket is left in the room; otherwise nothing is
    issued and the room keeps its other members. *)
Theorem unsubscribe_when_last_leaves (e : Env) (st : State) (ws : nat) (r : string)
    (s : gset nat)
    (Hh : handlers st !! ws = Some r) (Hs : roomSubscribers st !! r = Some s) :
  (s ⊆ {[ws]} ->
   (on_close e st ws).2 = (if redis_on e then [RedisUnsubscribe ("room:" +:+ r)] else [])
   /\ roomSubscribers (on_close e st ws).1 !! r = None)
  /\ (~ s ⊆ {[ws]} ->
      (on_close e st ws).2 = []
      /\ roomSubscribers (on_close e st ws).1 !! r = Some (s ∖ {[ws]})).
Proof.
  unfold on_close. rewrite Hh, Hs. split; intros Hsub.
  - rewrite bool_decide_eq_true_2 by (by apply size_without_zero). simpl.
    split; [reflexivity | apply lookup_delete_eq].
  - rewrite bool_decide_eq_false_2 by (by rewrite size_without_zero). simpl.
    split; [reflexivity | apply lookup_insert_eq].
Qed.

Lemma unsubscribe_when_last_leaves_witness :
  let st := (on_connection Sample.with_redis init 1 (Url (Some "r1"))).1 in
  ({[1%nat]} ⊆ ({[1%nat]} : gset nat) ->
   (on_close Sample.with_redis st 1).2
   = (if redis_on Sample.with_redis then [RedisUnsubscribe ("room:" +:+ "r1")] else [])
   /\ roomSubscribers (on_close Sample.with_redis st 1).1 !! "r1" = None)
  /\ (~ {[1%nat]} ⊆ ({[1%nat]} : gset nat) ->
      (on_close Sample.with_redis st 1).2 = []
      /\ roomSubscribers (on_close Sample.with_redis st 1).1 !! "r1"
         = Some ({[1%nat]} ∖ {[1%nat]})).
Proof.
  apply (unsubscribe_when_last_leaves Sample.with_redis
           (on_connection Sample.with_redis init 1 (Url (Some "r1"))).1 1 "r1" {[1%nat]}).
  - vm_compute. reflexivity.
  - vm_compute. reflexivity.
Defined.

Lemma step_keeps_rooms_inhabited (e : Env) (st : State) (i : input) :
  map_Forall (fun _ s => s <> (∅ : gset nat)) (roomSubscribers st) ->
  map_Forall (fun _ s => s <> (∅ : gset nat)) (roomSubscribers (step e st i).1).
Proof.
  intros Hinv. destruct i as [ws url|ws|channel msg]; simpl; [| |exact Hinv].
  - destruct url as [|[r|]]; [exact Hinv| |exact Hinv].
    destruct (String.eqb_spec r "") as [->|Hr]; [exact Hinv|].
    rewrite (on_connection_joined e st ws r Hr). simpl.
    apply map_Forall_insert_2; [set_solver | exact Hinv].
  - unfold on_close. destruct (handlers st !! ws) as [r|]; [|exact Hinv].
    destruct (roomSubscribers st !! r) as [s|]; [|exact Hinv].
    case_bool_decide as Hsz; simpl.
    + by apply map_Forall_delete.
    + apply map_Forall_insert_2; [|exact Hinv].
      intros Hempty. apply Hsz. rewrite Hempty. apply size_empty.
Qed.

(** X14.  However sockets come and go on an instance that starts with no
    rooms, a room that the registry records always has at least one
    member. *)
Theorem rooms_are_never_empty (e : Env) (inputs : list input) :
  map_Forall (fun _ s => s <> (∅ : gset nat)) (roomSubscribers (run e init inputs).1).
Proof.
  assert (forall st, map_Forall (fun _ s => s <> (∅ : gset nat)) (roomSubscribers st) ->
            map_Forall (fun _ s => s <> (∅ : gset nat))
              (roomSubscribers (run e st inputs).1)) as Hrun.
  { induction inputs as [|i rest IH]; intros st Hinv; [exact Hinv|].
    simpl. pose proof (step_keeps_rooms_inhabited e st i Hinv) as H1.
    destruct (step e st i) as [st1 effs1]. specialize (IH st1 H1).
    by destruct (run e st1 rest) as [st2 effs2]. }
  apply Hrun. unfold init. simpl. apply map_Forall_empty.
Qed.

(** ** From a submission to the sockets of the room *)

Import Delivery.

Lemma deliver_deferred_app (st : State) (a b : list effect) :
  deliver_deferred st (a ++ b) = deliver_deferred st a ++ deliver_deferred st b.
Proof.
  induction a as [|x a IH]; [done|].
  destruct x; simpl; rewrite ?IH, ?app_assoc; reflexivity.
Qed.

Lemma deliver_publish (e : Env) (st : State) (roomId : string) (payload : json) :
  deliver_deferred st (publish e roomId payload)
  = emit st ("room:" +:+ roomId) (JSON_stringify payload).
Proof. unfold publish. destruct (redis_on e); simpl; by rewrite app_nil_r. Qed.

Lemma deliver_post_comments (e : Env) (c : Call) (r : PostReq) (p : CreateBody)
    (st : State) :
  parsed r = Some p ->
  let temp := temp_of c (videoId p) (userId p) (content p)
                (JStr <$> replyToId p) (JStr <$> replyToUserId p) in
  deliver_deferred st (post_comments e c r)
  = emit st ("room:" +:+ videoId p) (JSON_stringify (broadcast "comment" temp))
    ++ (if truthy (JStr <$> replyToUserId p)
        then emit st ("room:" +:+ "user:" +:+ default "" (replyToUserId p))
               (JSON_stringify (broadcast "reply" temp))
        else []).
Proof.
  intros Hp temp. rewrite (post_comments_accepted e c r p Hp). fold temp.
  rewrite !deliver_deferred_app, deliver_publish.
  assert (deliver_deferred st
            (if shouldPersist e (forcePersist r p) (random c)
             then KafkaSend TOPIC_COMMENTS (videoId p) (JSON_stringify temp)
                  :: (if send_ok c then [] else [LogError "[kafka] failed to produce message"])
             else []) = []) as ->
    by (destruct (shouldPersist _ _ _); [destruct (send_ok c)|]; reflexivity).
  assert (deliver_deferred st
            (if redis_on e
             then [DeferCacheWrite
                     (cache_key (toLowerCase (str_or (q_scope r) "live")) (videoId p))
                     (JSON_stringify temp)]
             else []) = []) as -> by (by destruct (redis_on e)).
  simpl. rewrite app_nil_r. f_equal.
  destruct (truthy _); [apply deliver_publish | reflexivity].
Qed.

(** X15.  When the deferred emits of an accepted submission run, every
    socket listening on the channel of the comment's room is sent the
    broadcast of the record, and nothing is sent to a socket that listens
    neither there nor on the channel of the user replied to. *)
Theorem accepted_comment_reaches_room (e : Env) (c : Call) (r : PostReq)
    (p : CreateBody) (st : State) (Hp : parsed r = Some p) :
  let temp := temp_of c (videoId p) (userId p) (content p)
                (JStr <$> replyToId p) (JStr <$> replyToUserId p) in
  (forall ws, ws ∈ listeners st ("room:" +:+ videoId p) ->
     WsSend ws (JSON_stringify (broadcast "comment" temp))
     ∈ deliver_deferred st (post_comments e c r))
  /\ (forall w msg, WsSend w msg ∈ deliver_deferred st (post_comments e c r) ->
        w ∈ listeners st ("room:" +:+ videoId p)
        \/ exists u, replyToUserId p = Some u
                     /\ w ∈ listeners st ("room:" +:+ "user:" +:+ u)).
Proof.
  intros temp. rewrite (deliver_post_comments e c r p st Hp). fold temp. split.
  - intros ws Hws. rewrite elem_of_app. left. unfold emit.
    apply list_elem_of_fmap. by exists ws.
  - intros w msg. rewrite elem_of_app. unfold emit. intros [H|H].
    + apply list_elem_of_fmap in H as (w' & Hw & Hin). injection Hw as -> _. by left.
    + destruct (replyToUserId p) as [u|]; simpl in H; [|by apply not_elem_of_nil in H].
      destruct (negb (String.eqb u "")); [|by apply not_elem_of_nil in H].
      apply list_elem_of_fmap in H as (w' & Hw & Hin). injection Hw as -> _.
      right. by exists u.
Qed.

Lemma accepted_comment_reaches_room_witness :
  let p := {| videoId := "v1"; userId := "u1"; content := "hi";
              replyToId := None; replyToUserId := None; persist := None |} in
  let st := (on_connection Sample.with_redis init 1 (Url (Some "v1"))).1 in
  let temp := temp_of Sample.call (videoId p) (userId p) (content p)
                (JStr <$> replyToId p) (JStr <$> replyToUserId p) in
  (forall ws, ws ∈ listeners st ("room:" +:+ videoId p) ->
     WsSend ws (JSON_stringify (broadcast "comment" temp))
     ∈ deliver_deferred st (post_comments Sample.persist_none Sample.call Sample.post_hi))
  /\ (forall w msg,
        WsSend w msg
        ∈ deliver_deferred st (post_comments Sample.persist_none Sample.call Sample.post_hi) ->
        w ∈ listeners st ("room:" +:+ videoId p)
        \/ exists u, replyToUserId p = Some u
                     /\ w ∈ listeners st ("room:" +:+ "user:" +:+ u)).
Proof.
  apply (accepted_comment_reaches_room Sample.persist_none Sample.call Sample.post_hi
           {| videoId := "v1"; userId := "u1"; content := "hi";
              replyToId := None; replyToUserId := None; persist := None |}
           (on_connection Sample.with_redis init 1 (Url (Some "v1"))).1).
  reflexivity.
Defined.

(** ** More on the list consumer *)

(** X16.  If the fetch from the queue fails, or the trim that follows it,
    [processBatch] changes nothing (queue, dead-letter list and table are
    as before), attempts no insert and returns normally. *)
Theorem failed_fetch_changes_nothing (default_id : nat -> string) (k : Tick) (w : World)
    (Hfail : lrange_ok k = false \/ ltrim_ok k = false) :
  (processBatch default_id k w).1.1 = w
  /\ (processBatch default_id k w).2 = Returned
  /\ inserted (processBatch default_id k w).1.2 = []
  /\ dead_lettered (processBatch default_id k w).1.2 = [].
Proof.
  unfold processBatch, processBatch_try.
  destruct (lrange_ok k); simpl; [|done].
  destruct Hfail as [Hfail|Hfail]; [discriminate|]. rewrite Hfail. simpl.
  by destruct (Redis.lrange (redis w) QUEUE_NAME 0 (BATCH_SIZE - 1)).
Qed.

Lemma failed_fetch_changes_nothing_witness :
  let k := {| now := "t"; lrange_ok := true; ltrim_ok := false;
              insert_ok := true; rpush_ok := true |} in
  (processBatch Sample.cuid k Sample.two_queued).1.1 = Sample.two_queued
  /\ (processBatch Sample.cuid k Sample.two_queued).2 = Returned
  /\ inserted (processBatch Sample.cuid k Sample.two_queued).1.2 = []
  /\ dead_lettered (processBatch Sample.cuid k Sample.two_queued).1.2 = [].
Proof.
  apply (failed_fetch_changes_nothing Sample.cuid
           {| now := "t"; lrange_ok := true; ltrim_ok := false;
              insert_ok := true; rpush_ok := true |} Sample.two_queued).
  right. reflexivity.
Defined.

Lemma classify_valid_length (messages : list text) :
  (length (classify messages).1 <= length messages)%nat.
Proof. pose proof (classify_length messages). lia. Qed.

Lemma processBatch_inserts (default_id : nat -> string) (k : Tick) (w : World) :
  let messages := take 100 (Redis.llist (redis w) QUEUE_NAME) in
  inserted (processBatch default_id k w).1.2 = []
  \/ inserted (processBatch default_id k w).1.2 = [(classify messages).1].
Proof.
  intros messages. unfold processBatch, processBatch_try.
  destruct (lrange_ok k); simpl; [|by left]. rewrite fetched. fold messages.
  destruct messages as [|m0 ms] eqn:Em; [by left|]. rewrite <- Em. clear Em.
  destruct (ltrim_ok k); simpl; [|by left].
  destruct (classify messages) as [valid invalid]. simpl.
  destruct valid as [|c valid].
  - left. unfold move_invalid. destruct invalid; [done|]. by destruct (rpush_ok k).
  - right. destruct (insert_ok k).
    + destruct (Prisma.createMany _ _ _ _) as [t' n].
      unfold move_invalid. destruct invalid; [done|]. by destruct (rpush_ok k).
    + simpl. by destruct (rpush_ok k).
Qed.

(** X17.  One run of [processBatch] takes at most 100 entries: when the
    fetch and the trim succeed, what stays on the queue is the queue
    without its first 100 entries, in order, whatever becomes of the batch;
    and the run attempts at most one insert, of at most 100 comments. *)
Theorem batch_is_bounded (default_id : nat -> string) (k : Tick) (w : World)
    (Hl : lrange_ok k = true) (Ht : ltrim_ok k = true) :
  Redis.llist (redis (processBatch default_id k w).1.1) QUEUE_NAME
  = drop 100 (Redis.llist (redis w) QUEUE_NAME)
  /\ (length (inserted (processBatch default_id k w).1.2) <= 1)%nat
  /\ Forall (fun data => (length data <= 100)%nat)
       (inserted (processBatch default_id k w).1.2).
Proof.
  split; [|split].
  - destruct (Redis.llist (redis w) QUEUE_NAME) as [|m0 q] eqn:Eq.
    + unfold processBatch, processBatch_try. rewrite Hl, fetched, Eq. simpl.
      by rewrite Eq.
    + destruct (processBatch_trims_first default_id k w Hl Ht) as [_ Hq];
        [by rewrite Eq|].
      rewrite Hq, Eq, length_take.
      destruct (Nat.le_gt_cases 100 (length (m0 :: q))) as [Hle|Hgt].
      * by rewrite Nat.min_l.
      * rewrite Nat.min_r by lia. rewrite !drop_ge; [done | lia | lia].
  - destruct (processBatch_inserts default_id k w) as [-> | ->]; simpl; lia.
  - destruct (processBatch_inserts default_id k w) as [-> | ->]; [constructor|].
    constructor; [|constructor].
    etransitivity; [apply classify_valid_length|]. rewrite length_take. lia.
Qed.

Lemma batch_is_bounded_witness :
  Redis.llist (redis (processBatch Sample.cuid Sample.outage Sample.two_queued).1.1)
    QUEUE_NAME
  = drop 100 (Redis.llist (redis Sample.two_queued) QUEUE_NAME)
  /\ (length (inserted (processBatch Sample.cuid Sample.outage Sample.two_queued).1.2)
      <= 1)%nat
  /\ Forall (fun data => (length data <= 100)%nat)
       (inserted (processBatch Sample.cuid Sample.outage Sample.two_queued).1.2).
Proof.
  apply (batch_is_bounded Sample.cuid Sample.outage Sample.two_queued).
  - reflexivity.
  - reflexivity.
Defined.

Lemma classify_none_valid (messages : list text) :
  (classify messages).1 = [] -> (classify messages).2 = messages.
Proof.
  induction messages as [|m rest IH]; [done|].
  simpl. destruct (classify rest) as [valid invalid].
  destruct (validate m); simpl in *; intros H; try discriminate; by rewrite IH.
Qed.

(** X18.  A batch in which no entry is valid is moved to the dead-letter
    list as it is, entry for entry and in order; no insert is attempted
    and the table is untouched. *)
Theorem invalid_batch_is_dead_lettered (default_id : nat -> string) (k : Tick)
    (w : World)
    (Hl : lrange_ok k = true) (Ht : ltrim_ok k = true) (Hr : rpush_ok k = true)
    (Hnone : (classify (take 100 (Redis.llist (redis w) QUEUE_NAME))).1 = []) :
  let messages := take 100 (Redis.llist (redis w) QUEUE_NAME) in
  Redis.llist (redis (processBatch default_id k w).1.1) DLQ_NAME
  = Redis.llist (redis w) DLQ_NAME ++ messages
  /\ table (processBatch default_id k w).1.1 = table w
  /\ inserted (processBatch default_id k w).1.2 = [].
Proof.
  intros messages. pose proof (classify_none_valid messages Hnone) as Hinv.
  unfold processBatch, processBatch_try. rewrite Hl, Ht, fetched. simpl negb.
  fold messages. fold messages in Hnone.
  destruct messages as [|m0 ms] eqn:Em; [simpl; by rewrite app_nil_r|].
  rewrite <- Em in *. clear Em.
  destruct (classify messages) as [valid invalid]. simpl in Hnone, Hinv. subst valid invalid.
  unfold move_invalid. rewrite Hr.
  destruct messages as [|m1 ms1]; simpl.
  - by rewrite trimmed_dlq, app_nil_r.
  - by rewrite pushed_dlq, trimmed_dlq.
Qed.

Lemma invalid_batch_is_dead_lettered_witness :
  let w := {| redis := Redis.rpush Redis.empty QUEUE_NAME [Sample.garbage];
              table := Prisma.empty |} in
  let k := {| now := "t"; lrange_ok := true; ltrim_ok := true;
              insert_ok := true; rpush_ok := true |} in
  let messages := take 100 (Redis.llist (redis w) QUEUE_NAME) in
  Redis.llist (redis (processBatch Sample.cuid k w).1.1) DLQ_NAME
  = Redis.llist (redis w) DLQ_NAME ++ messages
  /\ table (processBatch Sample.cuid k w).1.1 = table w
  /\ inserted (processBatch Sample.cuid k w).1.2 = [].
Proof.
  apply (invalid_batch_is_dead_lettered Sample.cuid
           {| now := "t"; lrange_ok := true; ltrim_ok := true;
              insert_ok := true; rpush_ok := true |}
           {| redis := Redis.rpush Redis.empty QUEUE_NAME [Sample.garbage];
              table := Prisma.empty |}).
  - reflexivity.
  - reflexivity.
  - reflexivity.
  - vm_compute. reflexivity.
Defined.

(** X19.  A valid entry that the list consumer dead-letters after a failed
    insert is written as the three fields kept of it.  It can be replayed
    exactly when these three are non-empty: then the text written to the
    dead-letter list validates again, to the same record; when one of them
    is the empty string, the text written is no longer valid. *)
Theorem dead_lettered_valid_entry_replays (m : text) (c : Prisma.CommentCreateInput)
    (Hc : validate m = Valid c) :
  (Prisma.data_videoId c <> "" /\ Prisma.data_userId c <> ""
   /\ Prisma.data_content c <> "" ->
   validate (stringify_valid c) = Valid c)
  /\ (Prisma.data_videoId c = "" \/ Prisma.data_userId c = ""
      \/ Prisma.data_content c = "" ->
      validate (stringify_valid c) = BadStructure).
Proof.
  pose proof (validate_keeps_no_id m c Hc) as Hid.
  destruct c as [i v u ct]. simpl in *. subst i.
  unfold validate, stringify_valid. simpl. split.
  - intros (Hv & Hu & Hct).
    apply String.eqb_neq in Hv, Hu, Hct. rewrite Hv, Hu, Hct. reflexivity.
  - intros [-> | [-> | ->]]; simpl; [reflexivity | |].
    + destruct (String.eqb v ""); reflexivity.
    + destruct (String.eqb v ""), (String.eqb u ""); reflexivity.
Qed.

Lemma dead_lettered_valid_entry_replays_witness :
  (Prisma.data_videoId Sample.kept_hi <> "" /\ Prisma.data_userId Sample.kept_hi <> ""
   /\ Prisma.data_content Sample.kept_hi <> "" ->
   validate (stringify_valid Sample.kept_hi) = Valid Sample.kept_hi)
  /\ (Prisma.data_videoId Sample.kept_hi = "" \/ Prisma.data_userId Sample.kept_hi = ""
      \/ Prisma.data_content Sample.kept_hi = "" ->
      validate (stringify_valid Sample.kept_hi) = BadStructure).
Proof.
  apply (dead_lettered_valid_entry_replays Sample.queued_hi Sample.kept_hi).
  reflexivity.
Defined.

(** X20.  Validation in the consumers asks for truthy fields, not for
    non-empty strings: an entry whose [videoId] is the empty array, with
    any truthy [userId] and [content], is valid, and the record kept of it
    has the empty string as its [videoId]. *)
Theorem empty_array_passes_validation (fields : list (string * json))
    (Hv : assoc "videoId" fields = Some (JArr []))
    (Hu : truthy (assoc "userId" fields) = true)
    (Hc : truthy (assoc "content" fields) = true) :
  exists c, validate (Encoded (JObj fields)) = Valid c /\ Prisma.data_videoId c = "".
Proof.
  unfold validate. simpl. rewrite Hv, Hu, Hc. simpl.
  eexists. split; reflexivity.
Qed.

Lemma empty_array_passes_validation_witness :
  exists c,
    validate (Encoded (JObj [("videoId", JArr []); ("userId", JStr "u1");
                             ("content", JStr "hi")])) = Valid c
    /\ Prisma.data_videoId c = "".
Proof.
  apply (empty_array_passes_validation
           [("videoId", JArr []); ("userId", JStr "u1"); ("content", JStr "hi")]).
  - reflexivity.
  - reflexivity.
  - reflexivity.
Defined.

(** ** More on the Kafka consumer *)

Lemma each_message_resolved_upto (batch : list Message) (live : nat) :
  Forall (fun m => value m <> None) (take live batch) ->
  resolved (each_message live batch).1.2 = offset <$> take live batch
  /\ (each_message live batch).2 = Returned.
Proof.
  revert live. induction batch as [|m rest IH]; intros live Hall.
  - by destruct live.
  - destruct live as [|live]; [done|].
    simpl in Hall. inversion Hall as [|? ? Hm Hrest]; subst.
    simpl. destruct (value m) as [v|]; [|done].
    destruct (IH live Hrest) as [IHres IHret].
    destruct (each_message live rest) as [[valid evs] o].
    destruct (validate v); simpl in *; by rewrite IHres.
Qed.

(** X21.  When the consumer stops running or the batch goes stale after
    [live] messages, all of which have a value, [eachBatch] resolves the
    offsets of exactly the first [live] messages, leaves the rest of the
    batch unacknowledged, and returns normally. *)
Theorem stopped_consumer_leaves_the_rest (default_id : nat -> string) (at_ : string)
    (live : nat) (ok : bool) (t : Prisma.Table) (batch : list Message)
    (Hvalues : Forall (fun m => value m <> None) (take live batch)) :
  resolved (eachBatch default_id at_ live ok t batch).1.2 = offset <$> take live batch
  /\ (eachBatch default_id at_ live ok t batch).2 = Returned.
Proof.
  destruct (each_message_resolved_upto batch live Hvalues) as [Hupto Hret].
  split.
  - destruct (eachBatch_events default_id at_ live ok t batch) as (tail & -> & Hres & _).
    by rewrite resolved_app, Hres, app_nil_r.
  - unfold eachBatch. destruct (each_message live batch) as [[valid evs] o].
    simpl in Hret. subst o. destruct valid; [done|].
    destruct ok; [|done]. by destruct (Prisma.createMany _ _ _ _).
Qed.

Lemma stopped_consumer_leaves_the_rest_witness :
  let batch := [{| offset := 3; value := Some Sample.queued_hi |};
                {| offset := 4; value := None |}] in
  resolved (eachBatch Sample.cuid "t" 1 true Prisma.empty batch).1.2
  = offset <$> take 1 batch
  /\ (eachBatch Sample.cuid "t" 1 true Prisma.empty batch).2 = Returned.
Proof.
  apply (stopped_consumer_leaves_the_rest Sample.cuid "t" 1 true Prisma.empty
           [{| offset := 3; value := Some Sample.queued_hi |};
            {| offset := 4; value := None |}]).
  repeat constructor; simpl; discriminate.
Defined.

Lemma each_message_null (batch : list Message) (live : nat) :
  None ∈ (value <$> take live batch) ->
  exists what, (each_message live batch).2 = Thrown what.
Proof.
  revert live. induction batch as [|m rest IH]; intros live Hnull.
  - destruct live; by apply not_elem_of_nil in Hnull.
  - destruct live as [|live]; [by apply not_elem_of_nil in Hnull|].
    simpl in Hnull. simpl. destruct (value m) as [v|] eqn:Ev; [|by eexists].
    apply elem_of_cons in Hnull as [Hnull|Hnull]; [discriminate|].
    destruct (IH live Hnull) as [what Hwhat].
    destruct (each_message live rest) as [[valid evs] o]. simpl in Hwhat. subst o.
    destruct (validate v); by eexists.
Qed.

(** X22.  A message without a value among those the loop reaches makes
    [eachBatch] throw: nothing of the batch is inserted, not even the
    valid entries before it, whose offsets are already resolved. *)
Theorem null_value_aborts_batch (default_id : nat -> string) (at_ : string)
    (live : nat) (ok : bool) (t : Prisma.Table) (batch : list Message)
    (Hnull : None ∈ (value <$> take live batch)) :
  (exists what, (eachBatch default_id at_ live ok t batch).2 = Thrown what)
  /\ (eachBatch default_id at_ live ok t batch).1.1 = t
  /\ inserted (eachBatch default_id at_ live ok t batch).1.2 = [].
Proof.
  destruct (each_message_null batch live Hnull) as [what Hwhat].
  pose proof (each_message_no_insert batch live) as Hins.
  unfold eachBatch. destruct (each_message live batch) as [[valid evs] o].
  simpl in Hwhat, Hins. subst o. simpl. split; [by eexists | by split].
Qed.

Lemma null_value_aborts_batch_witness :
  let batch := [{| offset := 3; value := Some Sample.queued_hi |};
                {| offset := 4; value := None |}] in
  (exists what, (eachBatch Sample.cuid "t" 5 true Prisma.empty batch).2 = Thrown what)
  /\ (eachBatch Sample.cuid "t" 5 true Prisma.empty batch).1.1 = Prisma.empty
  /\ inserted (eachBatch Sample.cuid "t" 5 true Prisma.empty batch).1.2 = [].
Proof.
  apply (null_value_aborts_batch Sample.cuid "t" 5 true Prisma.empty
           [{| offset := 3; value := Some Sample.queued_hi |};
            {| offset := 4; value := None |}]).
  simpl. apply list_elem_of_further, list_elem_of_here.
Defined.

(** ** The live-stream service *)

Lemma prefix_split (p s : string) :
  String.prefix p s = true ->
  s = p +:+ String.substring (String.length p) (String.length s - String.length p) s.
Proof.
  revert s. induction p as [|a p IH]; intros s H.
  - simpl. rewrite Nat.sub_0_r. symmetry. by apply substring_0_short.
  - destruct s as [|b s]; [discriminate|]. simpl in H.
    destruct (ascii_dec a b) as [->|]; [|discriminate].
    simpl String.length. simpl Nat.sub. simpl String.substring.
    transitivity (String b (p +:+ String.substring (String.length p)
                                    (String.length s - String.length p) s));
      [f_equal; by apply IH | reflexivity].
Qed.

Lemma bearer_token_of_bearer (token : string) :
  Live.bearer_token ("Bearer " +:+ token) = token.
Proof.
  unfold Live.bearer_token, String.append. simpl.
  replace (String.prefix "" token) with true by (by destruct token).
  rewrite ?Nat.sub_0_r. apply substring_0_short. lia.
Qed.

Lemma bearer_token_inv (auth : string) :
  Live.bearer_token auth <> "" -> auth = "Bearer " +:+ Live.bearer_token auth.
Proof.
  unfold Live.bearer_token. destruct (String.prefix "Bearer " auth) eqn:E; [|done].
  intros _. by apply prefix_split in E.
Qed.

(** X23.  [verify] yields a user exactly for a request whose authorization
    header (the lower-case name first, else the capitalised one) is
    [Bearer ] followed by a non-empty token that the token service accepts
    with a truthy [sub]; the user id is the text of that [sub]. *)
Theorem verify_accepts_only_bearer (jwt_verify : string -> option json)
    (h : Live.Headers) (u : string) :
  Live.verify jwt_verify h = Some u
  <-> exists token decoded,
        token <> ""
        /\ str_or (Live.h_authorization h) (str_or (Live.h_Authorization h) "")
           = "Bearer " +:+ token
        /\ jwt_verify token = Some decoded
        /\ truthy (get (Some decoded) "sub") = true
        /\ u = String_of (get (Some decoded) "sub").
Proof.
  unfold Live.verify. set (auth := str_or _ _). split.
  - destruct (String.eqb_spec (Live.bearer_token auth) "") as [|Hne]; [done|].
    destruct (jwt_verify (Live.bearer_token auth)) as [decoded|] eqn:Ej; [|done].
    destruct (truthy (get (Some decoded) "sub")) eqn:Et; [|done].
    intros [= <-]. exists (Live.bearer_token auth), decoded.
    repeat split; try done. by apply bearer_token_inv.
  - intros (token & decoded & Hne & Hauth & Hj & Ht & ->).
    rewrite Hauth, bearer_token_of_bearer.
    rewrite (proj2 (String.eqb_neq token "") Hne), Hj, Ht. reflexivity.
Qed.


Lemma strip_slash_snoc (s : string) : Live.strip_slash (s +:+ "/") = s.
Proof.
  induction s as [|c s IH]; [reflexivity|].
  change (String c s +:+ "/") with (String c (s +:+ "/")).
  simpl. rewrite IH. by destruct s.
Qed.

(** X25.  One slash at the end of [RTMP_BASE] makes no difference: the
    ingest URL is the base without it, then [/live/], then the key. *)
Theorem ingest_url_ignores_trailing_slash (base webrtc key : string) :
  Live.ingestUrl_of {| Live.RTMP_BASE := base +:+ "/"; Live.WEBRTC_BASE := webrtc |} key
  = base +:+ "/live/" +:+ key.
Proof. unfold Live.ingestUrl_of. simpl. by rewrite strip_slash_snoc. Qed.

(** X26.  A stream that [POST /streams] has created is recorded under the
    id returned, with the verified user as its author and status [LIVE],
    and that user is then served, by [GET /streams/:id/ingest], the ingest
    URL that the creation returned. *)
Theorem created_stream_is_served_to_its_author (jwt_verify : string -> option json)
    (default_id : nat -> string) (b : Live.Bases) (t t' : Live.Streams)
    (h : Live.Headers) (body : text) (key : string) (resp : json)
    (Hc : Live.post_streams jwt_verify default_id b t h body key
          = Some (t', (200%nat, resp))) :
  exists s,
    Live.rows t' !! default_id (Live.minted t) = Some s
    /\ Live.verify jwt_verify h = Some (Live.authorId s)
    /\ Live.status s = "LIVE"
    /\ get (Some resp) "id" = Some (JStr (default_id (Live.minted t)))
    /\ get (Some resp) "ingestUrl" = Some (JStr (Live.ingestUrl_of b key))
    /\ Live.get_ingest jwt_verify b t' h (default_id (Live.minted t))
       = (200%nat, JObj [("ingestUrl", JStr (Live.ingestUrl_of b key))]).
Proof.
  unfold Live.post_streams in Hc.
  destruct (Live.verify jwt_verify h) as [u|] eqn:Ev; [|discriminate].
  destruct (Live.createSchema_safeParse _) as [[ttl descr]|]; [|discriminate].
  destruct (Live.rows t !! default_id (Live.minted t)) eqn:Ei; [discriminate|].
  injection Hc as <- <-. eexists. simpl.
  split; [apply lookup_insert_eq|]. simpl.
  split; [reflexivity|]. split; [reflexivity|]. split; [reflexivity|].
  split; [reflexivity|].
  unfold Live.get_ingest. rewrite Ev. simpl. rewrite lookup_insert_eq. simpl.
  by rewrite String.eqb_refl.
Qed.

Lemma created_stream_is_served_to_its_author_witness :
  let t' := {| Live.rows :=
                 <["c0" := {| Live.id := "c0"; Live.title := "show";
                              Live.description := None; Live.ingestKey := "ing_k";
                              Live.authorId := "u1"; Live.status := "LIVE";
                              Live.playbackId := "webrtc://localhost/live/ing_k" |}]> ∅;
               Live.minted := 1 |} in
  exists s,
    Live.rows t' !! Sample.cuid (Live.minted Sample.no_streams) = Some s
    /\ Live.verify Sample.jwt Sample.bearer_good = Some (Live.authorId s)
    /\ Live.status s = "LIVE"
    /\ get (Some (JObj [("id", JStr "c0"); ("ingestKey", JStr "ing_k");
                        ("ingestUrl", JStr "rtmp://localhost:1935/live/ing_k");
                        ("status", JStr "LIVE");
                        ("playbackId", JStr "webrtc://localhost/live/ing_k")])) "id"
       = Some (JStr (Sample.cuid (Live.minted Sample.no_streams)))
    /\ get (Some (JObj [("id", JStr "c0"); ("ingestKey", JStr "ing_k");
                        ("ingestUrl", JStr "rtmp://localhost:1935/live/ing_k");
                        ("status", JStr "LIVE");
                        ("playbackId", JStr "webrtc://localhost/live/ing_k")])) "ingestUrl"
       = Some (JStr (Live.ingestUrl_of Sample.bases "ing_k"))
    /\ Live.get_ingest Sample.jwt Sample.bases t' Sample.bearer_good
         (Sample.cuid (Live.minted Sample.no_streams))
       = (200%nat, JObj [("ingestUrl", JStr (Live.ingestUrl_of Sample.bases "ing_k"))]).
Proof.
  apply (created_stream_is_served_to_its_author Sample.jwt Sample.cuid Sample.bases
           Sample.no_streams _ Sample.bearer_good
           (Encoded (JObj [("title", JStr "show")])) "ing_k").
  vm_compute. reflexivity.
Defined.

(** X27.  A [POST /streams] that is not answered with 200, for want of a
    valid token or of a title, leaves the table of streams as it was. *)
Theorem rejected_stream_changes_nothing (jwt_verify : string -> option json)
    (default_id : nat -> string) (b : Live.Bases) (t t' : Live.Streams)
    (h : Live.Headers) (body : text) (key : string) (code : nat) (resp : json)
    (Hc : Live.post_streams jwt_verify default_id b t h body key = Some (t', (code, resp)))
    (Hcode : code <> 200%nat) :
  t' = t
  /\ (code = 401%nat <-> Live.verify jwt_verify h = None)
  /\ (code = 400%nat <-> Live.verify jwt_verify h <> None).
Proof.
  unfold Live.post_streams in Hc.
  destruct (Live.verify jwt_verify h) as [u|] eqn:Ev.
  - destruct (Live.createSchema_safeParse _) as [[ttl descr]|].
    + destruct (Live.rows t !! default_id (Live.minted t)); [discriminate|].
      injection Hc as _ <- _. done.
    + injection Hc as <- <- _. split; [done|]. split; split; done.
  - injection Hc as <- <- _. split; [done|]. split; split; done.
Qed.

Lemma rejected_stream_changes_nothing_witness :
  Sample.no_streams = Sample.no_streams
  /\ (401%nat = 401%nat <-> Live.verify Sample.jwt
                             {| Live.h_authorization := Some "Basic good";
                                Live.h_Authorization := None |} = None)
  /\ (401%nat = 400%nat <-> Live.verify Sample.jwt
                             {| Live.h_authorization := Some "Basic good";
                                Live.h_Authorization := None |} <> None).
Proof.
  apply (rejected_stream_changes_nothing Sample.jwt Sample.cuid Sample.bases
           Sample.no_streams Sample.no_streams
           {| Live.h_authorization := Some "Basic good"; Live.h_Authorization := None |}
           (Encoded (JObj [("title", JStr "show")])) "ing_k" 401
           (JObj [("error", JStr "unauthorized")])).
  - reflexivity.
  - discriminate.
Defined.
